(** * GPCR FASTA parser: a shallow embedding of [src/data/parser.py]

    The development follows the class [GPCRFastaParser]: the Python string
    methods it calls, the regular-expression search of [_extract_uniref_id],
    the FASTA reader it delegates to ([Bio.SeqIO.parse]), the data frame it
    builds and the statistics it derives.

    Conventions.
    - A Python [str] is a list of characters; characters are code points
      below 256 (the type [ascii]), which covers the text FASTA files hold.
    - A Python exception is a value of [exn]; a call that may raise returns
      a [Result].
    - A Python float is its exact rational value; every arithmetic
      operation rounds to a 53-bit significand, ties to even.  Exponents are
      not bounded, which agrees with binary64 wherever no overflow or
      underflow occurs (all the quantities below lie between 2^-1022 and
      2^1023 for sequences shorter than 2^1022 characters). *)

From Stdlib Require Import Ascii String.
From Stdlib Require Import List Bool Arith ZArith QArith Lia Lqa.
Import ListNotations.

Set Implicit Arguments.

(** ** Exceptions and results

    A constructor names the class of the exception object raised.  Python
    makes [UnicodeDecodeError] a subclass of [ValueError]; the two are kept
    apart, so [Raise ValueError] is an exception of class [ValueError]
    itself. *)

Inductive exn : Type :=
| KeyError
| IndexError
| ValueError
| UnicodeDecodeError.

Inductive Result (A : Type) : Type :=
| Ok (a : A)
| Raise (e : exn).

Arguments Ok {A} a.
Arguments Raise {A} e.

Definition bind {A B : Type} (r : Result A) (f : A -> Result B) : Result B :=
  match r with
  | Ok a => f a
  | Raise e => Raise e
  end.

Notation "x <- r ;; k" := (bind r (fun x => k))
  (at level 61, r at next level, right associativity).

(** ** Python strings *)

Definition str := list ascii.

Definition txt (lit : string) : str := list_ascii_of_string lit.

Definition chr_eqb (a b : ascii) : bool := Ascii.eqb a b.

Definition between (lo hi : nat) (c : ascii) : bool :=
  (lo <=? nat_of_ascii c)%nat && (nat_of_ascii c <=? hi)%nat.

(** [str.isspace] on one character: TAB..CR, FS..US, space, NEL, NBSP. *)
Definition is_space (c : ascii) : bool :=
  between 9 13 c || between 28 32 c
  || (nat_of_ascii c =? 133)%nat || (nat_of_ascii c =? 160)%nat.

(** The class [\d] of [re] (decimal digits; below 256 these are 0-9). *)
Definition is_digit (c : ascii) : bool := between 48 57 c.

(** The class [[A-Z0-9]]. *)
Definition is_upper_or_digit (c : ascii) : bool :=
  between 65 90 c || between 48 57 c.

Definition gt_char : ascii := ">"%char.
Definition gap_char : ascii := "-"%char.

Fixpoint drop_while (p : ascii -> bool) (t : str) : str :=
  match t with
  | [] => []
  | c :: t' => if p c then drop_while p t' else t
  end.

Fixpoint take_while (p : ascii -> bool) (t : str) : str :=
  match t with
  | [] => []
  | c :: t' => if p c then c :: take_while p t' else []
  end.

(** [t.split()]: the maximal runs of non-whitespace characters, in order. *)
Fixpoint split_fuel (fuel : nat) (t : str) : list str :=
  match fuel with
  | O => []
  | S fuel' =>
      match drop_while is_space t with
      | [] => []
      | c :: r =>
          take_while (fun x => negb (is_space x)) (c :: r)
          :: split_fuel fuel' (drop_while (fun x => negb (is_space x)) (c :: r))
      end
  end.

Definition split (t : str) : list str := split_fuel (S (length t)) t.

(** [t.replace(old, new)] for a one-character [old], the only form the
    parser calls. *)
Fixpoint replace (old : ascii) (new : str) (t : str) : str :=
  match t with
  | [] => []
  | c :: t' =>
      if chr_eqb c old then new ++ replace old new t'
      else c :: replace old new t'
  end.

(** [t.count(c)] for a one-character [c]. *)
Fixpoint count (c : ascii) (t : str) : nat :=
  match t with
  | [] => 0
  | x :: t' => (if chr_eqb x c then 1 else 0) + count c t'
  end.

(** [t.rstrip()]. *)
Fixpoint rstrip (t : str) : str :=
  match t with
  | [] => []
  | c :: t' =>
      match rstrip t' with
      | [] => if is_space c then [] else [c]
      | r => c :: r
      end
  end.

(** [l[0]] on a Python list. *)
Definition item0 {A : Type} (l : list A) : Result A :=
  match l with
  | [] => Raise IndexError
  | x :: _ => Ok x
  end.

(** ** Regular expressions

    The fragment of [re] that the pattern of [_extract_uniref_id] is
    written in: literal characters, character classes, the greedy
    one-or-more repetition of a class, concatenation and the capturing
    group.  Matching is by backtracking, as in [re]: a repetition takes the
    longest run first and gives characters back one at a time while the
    rest of the pattern fails. *)

Module Re.

Inductive regex : Type :=
| Lit (c : ascii)
| Cls (p : ascii -> bool)
| Plus (p : ascii -> bool)
| Cat (r1 r2 : regex)
| Group (r : regex).

Section Matcher.
Variable A : Type.

(** Zero or more characters of the class, longest first. *)
Fixpoint many (p : ascii -> bool) (t : str) (k : str -> option A) : option A :=
  match t with
  | c :: t' =>
      if p c then
        match many p t' k with
        | Some a => Some a
        | None => k t
        end
      else k t
  | [] => k t
  end.

(** [go r t g k]: match [r] at the head of [t]; [g] is the text of
    group 1 so far, [k] receives the unread text and the group. *)
Fixpoint go (r : regex) (t : str) (g : str) (k : str -> str -> option A)
  : option A :=
  match r with
  | Lit c =>
      match t with
      | x :: t' => if chr_eqb x c then k t' g else None
      | [] => None
      end
  | Cls p =>
      match t with
      | x :: t' => if p x then k t' g else None
      | [] => None
      end
  | Plus p =>
      match t with
      | x :: t' => if p x then many p t' (fun u => k u g) else None
      | [] => None
      end
  | Cat r1 r2 => go r1 t g (fun u g' => go r2 u g' k)
  | Group r' =>
      go r' t g (fun u _ => k u (firstn (length t - length u) t))
  end.
End Matcher.

Definition lits (t : str) (r : regex) : regex :=
  fold_right (fun c acc => Cat (Lit c) acc) r t.

(** [re.match]: the text of group 1 when the pattern matches at the head. *)
Definition match_ (r : regex) (t : str) : option str :=
  go r t [] (fun _ g => Some g).

(** [re.search]: the leftmost position at which the pattern matches. *)
Fixpoint search (r : regex) (t : str) : option str :=
  match match_ r t with
  | Some g => Some g
  | None =>
      match t with
      | [] => None
      | _ :: t' => search r t'
      end
  end.

End Re.

(** ** [GPCRFastaParser._extract_uniref_id] *)

(** The pattern [UniRef\d+_([A-Z0-9]+)]. *)
Definition uniref_pattern : Re.regex :=
  Re.lits (txt "UniRef")
    (Re.Cat (Re.Plus is_digit)
       (Re.Cat (Re.Lit "_"%char) (Re.Group (Re.Plus is_upper_or_digit)))).

(** The fallback [header.split()[0].replace('>', '')]. *)
Definition first_token_fallback (header : str) : Result str :=
  tok <- item0 (split header) ;;
  Ok (replace gt_char [] tok).

Definition _extract_uniref_id (header : str) : Result str :=
  match Re.search uniref_pattern header with
  | Some g => Ok g
  | None => first_token_fallback header
  end.

(** ** [Bio.SeqIO.parse(path, "fasta")]

    The reader the parser delegates to, as Biopython's [FastaIterator]
    does it: a file whose first line does not start with [>] is refused
    with [ValueError]; every line that starts with [>] opens a record whose
    title is the rest of the line, right-stripped, and the lines up to the
    next such line are joined, blanks deleted, into its sequence.  The
    sequence is kept as bytes, and [str(record.seq)] decodes it as ASCII.
    The argument is the text of the file after newline translation;
    iterating over the file gives its lines, each with its line feed. *)

Module SeqIO.

Record SeqRecord : Type := {
  id : str;
  description : str;
  seq : str
}.

Definition LF : ascii := ascii_of_nat 10.

(** The lines of a text file, line feeds kept. *)
Fixpoint readlines (t : str) : list str :=
  match t with
  | [] => []
  | c :: t' =>
      if chr_eqb c LF then [c] :: readlines t'
      else
        match readlines t' with
        | [] => [[c]]
        | l :: ls => (c :: l) :: ls
        end
  end.

(** [line[0] == ">"] *)
Definition is_marker (line : str) : bool :=
  match line with
  | c :: _ => chr_eqb c gt_char
  | [] => false
  end.

(** [title = line[1:].rstrip()] *)
Definition title_of (line : str) : str := rstrip (tl line).

(** The characters deleted from the joined body lines: space, TAB, CR, LF. *)
Definition is_blank (c : ascii) : bool :=
  let n := nat_of_ascii c in
  (n =? 32)%nat || (n =? 9)%nat || (n =? 13)%nat || (n =? 10)%nat.

(** [title.split(None, 1)[0]], the empty string when there is no word. *)
Definition first_word (title : str) : str :=
  match split title with
  | [] => []
  | w :: _ => w
  end.

Definition make_record (title : str) (lines : list str) : SeqRecord :=
  {| id := first_word title;
     description := title;
     seq := filter (fun c => negb (is_blank c)) (concat lines) |}.

(** A character that ASCII holds. *)
Definition is_ascii (c : ascii) : bool := (nat_of_ascii c <? 128)%nat.

(** [str(record.seq)]: [UnicodeDecodeError] (a [ValueError]) on a sequence
    with a character outside ASCII. *)
Definition seq_str (data : str) : Result str :=
  if forallb is_ascii data then Ok data else Raise UnicodeDecodeError.

(** One record for each marker line: the body lines of the current record
    are gathered until the next marker line or the end of the file. *)
Fixpoint collect (title : str) (body : list str) (ls : list str)
  : list SeqRecord :=
  match ls with
  | [] => [make_record title body]
  | l :: ls' =>
      if is_marker l then make_record title body :: collect (title_of l) [] ls'
      else collect title (body ++ [l]) ls'
  end.

(** The first line decides: no line, no record; a line that starts with
    [>] opens the first record; any other line is refused. *)
Definition parse_lines (ls : list str) : Result (list SeqRecord) :=
  match ls with
  | [] => Ok []
  | l :: ls' =>
      if is_marker l then Ok (collect (title_of l) [] ls')
      else Raise ValueError
  end.

Definition parse (text : str) : Result (list SeqRecord) :=
  parse_lines (readlines text).

End SeqIO.

(** ** Floats *)

(** The integer nearest to [a / b] for [0 < b], ties to the even one. *)
Definition rne_div (a b : Z) : Z :=
  let q := (a / b)%Z in
  let r := (a mod b)%Z in
  if (2 * r <? b)%Z then q
  else if (b <? 2 * r)%Z then (q + 1)%Z
  else if Z.even q then q else (q + 1)%Z.

(** [floor (log2 (p / q))] for positive [p] and [q]. *)
Definition ilog2 (p q : Z) : Z :=
  let d := (Z.log2 p - Z.log2 q)%Z in
  if (0 <=? d)%Z then
    if (q * 2 ^ d <=? p)%Z then d else (d - 1)%Z
  else
    if (q <=? p * 2 ^ (- d))%Z then d else (d - 1)%Z.

(** [p / q] rounded to 53 significant bits, for positive [p] and [q]. *)
Definition round53_pos (p q : Z) : Q :=
  let e := (ilog2 p q - 52)%Z in
  if (0 <=? e)%Z then inject_Z (rne_div p (q * 2 ^ e) * 2 ^ e)
  else Qmake (rne_div (p * 2 ^ (- e)) q) (Z.to_pos (2 ^ (- e))).

(** Rounding of a rational to the nearest float. *)
Definition fl (x : Q) : Q :=
  Qred match Qnum x with
       | Z0 => 0
       | Zpos p => round53_pos (Zpos p) (Zpos (Qden x))
       | Zneg p => - round53_pos (Zpos p) (Zpos (Qden x))
       end.

(** [a / b] on Python ints ([b] not zero): the correctly rounded quotient. *)
Definition int_truediv (a b : Z) : Q := fl (inject_Z a / inject_Z b).

(** [x * y] on floats. *)
Definition float_mul (x y : Q) : Q := fl (x * y).

(** [x / y] on floats ([y] not zero). *)
Definition float_div (x y : Q) : Q := fl (x / y).

(** The integer nearest to a rational, ties to even. *)
Definition rne (x : Q) : Z := rne_div (Qnum x) (Zpos (Qden x)).

(** [round(x, 2)] on a float: the exact value of [x] is rounded to two
    decimal places, ties to even, and that decimal is read back as a float. *)
Definition round2 (x : Q) : Q := fl (inject_Z (rne (x * 100)) / 100).

(** ** The data frame *)

(** One dict of [sequences_data]. *)
Record Row : Type := {
  id : str;
  uniref_id : str;
  full_header : str;
  sequence : str;
  length : nat;
  gap_count : nat;
  gap_percentage : Q
}.

Inductive column : Type :=
| c_id | c_uniref_id | c_full_header | c_sequence
| c_length | c_gap_count | c_gap_percentage.

Definition column_eqb (a b : column) : bool :=
  match a, b with
  | c_id, c_id | c_uniref_id, c_uniref_id | c_full_header, c_full_header
  | c_sequence, c_sequence | c_length, c_length | c_gap_count, c_gap_count
  | c_gap_percentage, c_gap_percentage => true
  | _, _ => false
  end.

Record DataFrame : Type := {
  columns : list column;
  rows : list Row
}.

Definition all_columns : list column :=
  [c_id; c_uniref_id; c_full_header; c_sequence;
   c_length; c_gap_count; c_gap_percentage].

(** [pd.DataFrame(sequences_data)]: the columns are the keys of the dicts;
    an empty list gives a frame with no column at all. *)
Definition make_frame (data : list Row) : DataFrame :=
  {| columns := match data with [] => [] | _ :: _ => all_columns end;
     rows := data |}.

(** [c in df.columns] *)
Definition has_column (df : DataFrame) (c : column) : bool :=
  existsb (column_eqb c) (columns df).

(** [df[c]]: the column as a list, [KeyError] when the frame has no such
    column.  [proj] is the field of the rows that the column [c] holds. *)
Definition getitem {A : Type} (df : DataFrame) (c : column) (proj : Row -> A)
  : Result (list A) :=
  if has_column df c then Ok (map proj (rows df))
  else Raise KeyError.

(** [df[df[c] == v]]: the rows that pass, under the same columns. *)
Definition select (df : DataFrame) (keep : Row -> bool) : DataFrame :=
  {| columns := columns df; rows := filter keep (rows df) |}.

(** [len(df)] *)
Definition len (df : DataFrame) : nat := List.length (rows df).

(** Numbers as pandas returns them from a reduction. *)
Inductive number : Type :=
| NaN
| Int (z : Z)
| Float (q : Q).

Definition sumZ (l : list nat) : Z :=
  fold_right (fun n acc => (Z.of_nat n + acc)%Z) 0%Z l.

(** [Series.mean()] of an integer column: NaN when empty, else the sum
    (exact in a float while it stays below 2^53) divided by the count. *)
Definition mean_int (l : list nat) : number :=
  match l with
  | [] => NaN
  | _ :: _ => Float (float_div (inject_Z (sumZ l)) (inject_Z (Z.of_nat (List.length l))))
  end.

(** [Series.min()] and [Series.max()] of an integer column. *)
Definition min_int (l : list nat) : number :=
  match l with
  | [] => NaN
  | x :: l' => Int (Z.of_nat (fold_right Nat.min x l'))
  end.

Definition max_int (l : list nat) : number :=
  match l with
  | [] => NaN
  | x :: l' => Int (Z.of_nat (fold_right Nat.max x l'))
  end.

Fixpoint str_eqb (a b : str) : bool :=
  match a, b with
  | [], [] => true
  | x :: a', y :: b' => chr_eqb x y && str_eqb a' b'
  | _, _ => false
  end.

(** What a lookup hands back: a string, or a whole row of the frame. *)
Inductive pyobj : Type :=
| PyStr (t : str)
| PyRow (r : Row).

Record Statistics : Type := {
  total_sequences : nat;
  avg_length : number;
  min_length : number;
  max_length : number;
  avg_gap_percentage : number;
  sequences_with_gaps : nat
}.

(** Floats added one after the other, each sum rounded. *)
Definition seq_float_sum (l : list Q) : Q :=
  fold_left (fun acc x => fl (acc + x)) l 0.

(** ** [GPCRFastaParser] *)

Section GPCRFastaParser.

(** The float sum of a column as numpy computes it; the order in which it
    adds depends on the length of the column and on the build. *)
Variable float_sum : list Q -> Q.

(** [Series.mean()] of a float column. *)
Definition mean_float (l : list Q) : number :=
  match l with
  | [] => NaN
  | _ :: _ =>
      Float (float_div (float_sum l) (inject_Z (Z.of_nat (List.length l))))
  end.

(** The body of the loop of [parse]: one dict from one record. *)
Definition enrich (record : SeqIO.SeqRecord) : Result Row :=
  let header := SeqIO.description record in
  let seq_id := SeqIO.id record in
  uid <- _extract_uniref_id header ;;
  sequence <- SeqIO.seq_str (SeqIO.seq record) ;;
  let length := List.length sequence in
  let gap_count := count gap_char sequence in
  let gap_percentage :=
    if (0 <? length)%nat
    then float_mul (int_truediv (Z.of_nat gap_count) (Z.of_nat length)) 100
    else 0 in
  Ok {| id := seq_id;
        uniref_id := uid;
        full_header := header;
        sequence := sequence;
        length := length;
        gap_count := gap_count;
        gap_percentage := round2 gap_percentage |}.

(** The loop: the first record that raises ends it. *)
Fixpoint enrich_all (records : list SeqIO.SeqRecord) : Result (list Row) :=
  match records with
  | [] => Ok []
  | r :: rs =>
      row <- enrich r ;;
      rest <- enrich_all rs ;;
      Ok (row :: rest)
  end.

(** [parse]: the loop, the frame, and the two column reads of the report
    printed before the frame is returned. *)
Definition parse (text : str) : Result DataFrame :=
  records <- SeqIO.parse text ;;
  sequences_data <- enrich_all records ;;
  let df := make_frame sequences_data in
  lengths <- getitem df c_length length ;;
  let avg_len := mean_int lengths in
  gaps <- getitem df c_gap_percentage gap_percentage ;;
  let avg_gaps := mean_float gaps in
  Ok df.

(** [get_sequence_by_id] *)
Definition get_sequence_by_id (df : DataFrame) (uid : str) : Result pyobj :=
  ids <- getitem df c_uniref_id uniref_id ;;
  let result := select df (fun r => str_eqb (uniref_id r) uid) in
  if (len result =? 0)%nat then Raise ValueError
  else
    row <- item0 (rows result) ;;
    if has_column result c_sequence
    then Ok (PyStr (sequence row))
    else Raise KeyError.

(** [remove_gaps] *)
Definition remove_gaps (sequence : str) : str := replace gap_char [] sequence.

(** [get_statistics] *)
Definition get_statistics (df : DataFrame) : Result Statistics :=
  let total := len df in
  lengths <- getitem df c_length length ;;
  gaps <- getitem df c_gap_percentage gap_percentage ;;
  counts <- getitem df c_gap_count gap_count ;;
  Ok {| total_sequences := total;
        avg_length := mean_int lengths;
        min_length := min_int lengths;
        max_length := max_int lengths;
        avg_gap_percentage := mean_float gaps;
        sequences_with_gaps :=
          List.length (filter (fun n => (0 <? n)%nat) counts) |}.

End GPCRFastaParser.

(** ** The specification's formulas, for comparison *)

(** [round(100 * gap_count / length, 2)], evaluated as Python does. *)
Definition spec_gap_percentage (gap_count length : nat) : Q :=
  if (0 <? length)%nat
  then round2 (int_truediv (100 * Z.of_nat gap_count) (Z.of_nat length))
  else 0.

(** The same with the quotient taken exactly. *)
Definition exact_gap_percentage (gap_count length : nat) : Q :=
  if (0 <? length)%nat
  then round2 (100 * inject_Z (Z.of_nat gap_count) / inject_Z (Z.of_nat length))
  else 0.

(** The first record, in file order, with the given secondary identifier. *)
Definition find_by_secondary_id (df : DataFrame) (uid : str) : option Row :=
  find (fun r => str_eqb (uniref_id r) uid) (rows df).

(** Order on the numbers; NaN compares with nothing. *)
Definition number_value (n : number) : option Q :=
  match n with
  | NaN => None
  | Int z => Some (inject_Z z)
  | Float q => Some q
  end.

Definition number_le (a b : number) : Prop :=
  match number_value a, number_value b with
  | Some x, Some y => x <= y
  | _, _ => False
  end.

(** The statistics of a frame that has its columns and no row. *)
Definition degenerate_statistics : Statistics :=
  {| total_sequences := 0;
     avg_length := NaN;
     min_length := NaN;
     max_length := NaN;
     avg_gap_percentage := NaN;
     sequences_with_gaps := 0 |}.

(** Texts used in the examples. *)
Definition nl : str := [SeqIO.LF].

Definition scenario : str :=
  txt ">UniRef100_UPI0000000AAA desc one" ++ nl ++ txt "MK-KV" ++ nl
  ++ txt "GT" ++ nl ++ txt ">UniRef100_UPI0000000BBB desc two" ++ nl
  ++ txt "--AA" ++ nl.

Definition gapped (gaps residues : nat) : str :=
  txt ">seq" ++ nl ++ repeat gap_char gaps ++ repeat "A"%char residues ++ nl.

(** The first word of a text: what follows the leading whitespace, up to
    the next whitespace character. *)
Definition first_token (t : str) : str :=
  take_while (fun x => negb (is_space x)) (drop_while is_space t).

(** ** The pattern, read declaratively *)

Fixpoint strip_prefix (pfx t : str) : option str :=
  match pfx with
  | [] => Some t
  | c :: pfx' =>
      match t with
      | x :: t' => if chr_eqb x c then strip_prefix pfx' t' else None
      | [] => None
      end
  end.

(** The pattern at the head of a text, without backtracking: the literal,
    the whole run of digits, the underscore, the whole run of capitals and
    digits. *)
Definition uniref_at_head (t : str) : option str :=
  match strip_prefix (txt "UniRef") t with
  | Some (d :: t1) =>
      if is_digit d then
        match drop_while is_digit t1 with
        | u :: x :: t2 =>
            if chr_eqb u "_"%char then
              if is_upper_or_digit x
              then Some (x :: take_while is_upper_or_digit t2)
              else None
            else None
        | _ => None
        end
      else None
  | _ => None
  end.

(** [header] holds, right after [pre], the text [UniRef], one or more
    digits, an underscore and the maximal run [run] of capitals and digits. *)
Definition uniref_match (header pre run : str) : Prop :=
  exists digits rest,
    header = pre ++ txt "UniRef" ++ digits ++ "_"%char :: run ++ rest
    /\ digits <> [] /\ forallb is_digit digits = true
    /\ run <> [] /\ forallb is_upper_or_digit run = true
    /\ match rest with
       | [] => True
       | c :: _ => is_upper_or_digit c = false
       end.

(** The frame of the scenario of the specification, and its first row. *)
Definition scenario_frame : DataFrame :=
  Eval vm_compute in
    match parse seq_float_sum scenario with
    | Ok df => df
    | Raise _ => make_frame []
    end.

Definition scenario_row : Row :=
  Eval vm_compute in
    match rows scenario_frame with
    | r :: _ => r
    | [] => {| id := []; uniref_id := []; full_header := []; sequence := [];
               length := 0; gap_count := 0; gap_percentage := 0 |}
    end.

(** ** [GPCRFastaParser.__init__] and [main]

    The file system is what the four calls that touch it answer:
    [Path.exists], the opening and reading of the FASTA file, and the
    creation of the output directory followed by [to_csv].  Nothing is
    assumed on how the answers relate. *)

Record parser_object : Type := { fasta_path : str }.

(** How a run of [main] ends. *)
Inductive outcome : Type :=
| Exited (code : nat)
| RaisedByInit
| RaisedByOpen
| RaisedByParse (e : exn)
| RaisedBySave
| RaisedByStatistics (df : DataFrame) (e : exn)
| RaisedByPreview (df : DataFrame) (stats : Statistics) (e : exn)
| Returned (df : DataFrame) (stats : Statistics) (preview : DataFrame).

(** [df[[c1, c2, ...]]]: the frame restricted to the listed columns. *)
Definition getitems (df : DataFrame) (cs : list column) : Result DataFrame :=
  if forallb (has_column df) cs then Ok {| columns := cs; rows := rows df |}
  else Raise KeyError.

(** [df.head(n)] *)
Definition head (n : nat) (df : DataFrame) : DataFrame :=
  {| columns := columns df; rows := firstn n (rows df) |}.

Definition output_path : str := txt "data/processed/sequences_parsed.csv".

Section Main.

Variable float_sum : list Q -> Q.

(** [Path(p).exists()] *)
Variable path_exists : str -> bool.

(** The text read from the file at a path; [None] when opening or reading
    it raises. *)
Variable read_text : str -> option str.

(** Whether [mkdir] and [to_csv] go through for a path and a frame. *)
Variable write_csv : str -> DataFrame -> bool.

(** [__init__]: [None] stands for the [FileNotFoundError] it raises. *)
Definition __init__ (path : str) : option parser_object :=
  if path_exists path then Some {| fasta_path := path |} else None.

Definition main (argv : list str) : outcome :=
  match argv with
  | _ :: fasta_file :: _ =>
      match __init__ fasta_file with
      | None => RaisedByInit
      | Some parser =>
          match read_text (fasta_path parser) with
          | None => RaisedByOpen
          | Some text =>
              match parse float_sum text with
              | Raise e => RaisedByParse e
              | Ok df =>
                  if write_csv output_path df then
                    match get_statistics float_sum df with
                    | Raise e => RaisedByStatistics df e
                    | Ok stats =>
                        match getitems df [c_uniref_id; c_length;
                                           c_gap_percentage] with
                        | Raise e => RaisedByPreview df stats e
                        | Ok view => Returned df stats (head 3 view)
                        end
                    end
                  else RaisedBySave
              end
          end
      end
  | _ => Exited 1
  end.

End Main.

(** The frame that a run has written to the CSV file, if any. *)
Definition saved (o : outcome) : option DataFrame :=
  match o with
  | RaisedByStatistics df _ | RaisedByPreview df _ _ | Returned df _ _ => Some df
  | _ => None
  end.

(** Two aligned sequences, and their frame. *)
Definition alignment : str :=
  txt ">a first" ++ nl ++ txt "MK-V" ++ nl
  ++ txt ">b second" ++ nl ++ txt "M-KV" ++ nl.

Definition alignment_frame : DataFrame :=
  Eval vm_compute in
    match parse seq_float_sum alignment with
    | Ok df => df
    | Raise _ => make_frame []
    end.

(** The statistics of the scenario. *)
Definition scenario_stats : Statistics :=
  Eval vm_compute in
    match get_statistics seq_float_sum scenario_frame with
    | Ok st => st
    | Raise _ => degenerate_statistics
    end.

(** What every record of the reader satisfies. *)
Definition record_shape (sr : SeqIO.SeqRecord) : Prop :=
  SeqIO.id sr = SeqIO.first_word (SeqIO.description sr)
  /\ rstrip (SeqIO.description sr) = SeqIO.description sr
  /\ forallb (fun c => negb (SeqIO.is_blank c)) (SeqIO.seq sr) = true.

(** Two lines that the reader cannot tell apart. *)
Definition line_equiv (l l' : str) : Prop :=
  SeqIO.is_marker l = SeqIO.is_marker l'
  /\ SeqIO.title_of l = SeqIO.title_of l'
  /\ filter (fun c => negb (SeqIO.is_blank c)) l
     = filter (fun c => negb (SeqIO.is_blank c)) l'.

(** * Properties *)

(** ** Strings *)

Lemma chr_eqb_eq (a b : ascii) : chr_eqb a b = true <-> a = b.
Proof. unfold chr_eqb. apply Ascii.eqb_eq. Qed.

Lemma chr_eqb_refl (a : ascii) : chr_eqb a a = true.
Proof. apply chr_eqb_eq. reflexivity. Qed.

Lemma str_eqb_eq (a b : str) : str_eqb a b = true <-> a = b.
Proof.
  revert b. induction a as [|x a IH]; intros [|y b]; simpl; split;
    try congruence; try reflexivity.
  - intros H. apply andb_true_iff in H. destruct H as [H1 H2].
    apply chr_eqb_eq in H1. apply IH in H2. congruence.
  - intros H. injection H as -> ->. rewrite chr_eqb_refl. simpl.
    apply IH. reflexivity.
Qed.

Lemma replace_nil_filter (old : ascii) (t : str) :
  replace old [] t = filter (fun c => negb (chr_eqb c old)) t.
Proof.
  induction t as [|c t IH]; simpl; [reflexivity|].
  destruct (chr_eqb c old); simpl; congruence.
Qed.

Lemma count_filter_length (c : ascii) (t : str) :
  (List.length (filter (fun x => negb (chr_eqb x c)) t) + count c t
   = List.length t)%nat.
Proof.
  induction t as [|x t IH]; simpl; [reflexivity|].
  destruct (chr_eqb x c); simpl; lia.
Qed.

Lemma count_le_length (c : ascii) (t : str) : (count c t <= List.length t)%nat.
Proof. pose proof (count_filter_length c t). lia. Qed.

Lemma take_drop_while (p : ascii -> bool) (t : str) :
  take_while p t ++ drop_while p t = t.
Proof.
  induction t as [|c t IH]; simpl; [reflexivity|].
  destruct (p c); simpl; congruence.
Qed.

Lemma drop_while_length (p : ascii -> bool) (t : str) :
  (List.length (drop_while p t) <= List.length t)%nat.
Proof.
  induction t as [|c t IH]; simpl; [lia|]. destruct (p c); simpl; lia.
Qed.

Lemma take_while_all (p : ascii -> bool) (t : str) :
  forallb p (take_while p t) = true.
Proof.
  induction t as [|c t IH]; simpl; [reflexivity|].
  destruct (p c) eqn:E; simpl; [rewrite E; exact IH | reflexivity].
Qed.

Lemma drop_while_head (p : ascii -> bool) (t : str) :
  match drop_while p t with
  | [] => True
  | c :: _ => p c = false
  end.
Proof.
  induction t as [|c t IH]; simpl; [exact I|].
  destruct (p c) eqn:E; [exact IH | exact E].
Qed.

Lemma drop_while_app (p : ascii -> bool) (a b : str) :
  forallb p a = true ->
  drop_while p (a ++ b) = drop_while p b.
Proof.
  induction a as [|c a IH]; simpl; [reflexivity|].
  intros H. apply andb_true_iff in H. destruct H as [H1 H2].
  rewrite H1. exact (IH H2).
Qed.

Lemma take_while_app (p : ascii -> bool) (a b : str) :
  forallb p a = true ->
  take_while p (a ++ b) = a ++ take_while p b.
Proof.
  induction a as [|c a IH]; simpl; [reflexivity|].
  intros H. apply andb_true_iff in H. destruct H as [H1 H2].
  rewrite H1, (IH H2). reflexivity.
Qed.

(** [split] gives no word exactly on a text with whitespace only. *)
Lemma split_nil_iff (t : str) : split t = [] <-> forallb is_space t = true.
Proof.
  unfold split. simpl.
  assert (D : drop_while is_space t = [] <-> forallb is_space t = true).
  { induction t as [|c t IH]; simpl; [tauto|].
    destruct (is_space c); simpl; [exact IH | split; discriminate]. }
  destruct (drop_while is_space t) eqn:E.
  - split; intros _; [apply D; reflexivity | reflexivity].
  - split; [discriminate|]. intros H. apply D in H. discriminate.
Qed.

Lemma split_head (t : str) :
  forallb is_space t = false ->
  exists rest, split t = first_token t :: rest.
Proof.
  intros H. unfold split, first_token. simpl.
  destruct (drop_while is_space t) as [|c r] eqn:E.
  - exfalso. assert (S0 : split t = []) by (unfold split; simpl; rewrite E; reflexivity).
    apply split_nil_iff in S0. congruence.
  - eexists. reflexivity.
Qed.

Lemma first_token_nonempty (t : str) :
  forallb is_space t = false -> first_token t <> [].
Proof.
  intros H. unfold first_token.
  pose proof (drop_while_head is_space t) as Hd.
  destruct (drop_while is_space t) as [|c r] eqn:E.
  - exfalso. assert (S0 : split t = []) by (unfold split; simpl; rewrite E; reflexivity).
    apply split_nil_iff in S0. congruence.
  - simpl. rewrite Hd. simpl. discriminate.
Qed.

Lemma split_fuel_irrelevant (n m : nat) (t : str) :
  (List.length t < n)%nat -> (List.length t < m)%nat ->
  split_fuel n t = split_fuel m t.
Proof.
  revert m t. induction n as [|n IH]; intros m t Hn Hm; [lia|].
  destruct m as [|m]; [lia|]. simpl.
  pose proof (drop_while_length is_space t) as D.
  pose proof (drop_while_head is_space t) as Hd.
  destruct (drop_while is_space t) as [|c r]; [reflexivity|].
  f_equal. simpl. rewrite Hd. simpl.
  pose proof (drop_while_length (fun x => negb (is_space x)) r) as D2.
  simpl in D. apply IH; lia.
Qed.

(** The fuel of [split] never runs out before the text does. *)
Lemma split_fuel_enough (n : nat) (t : str) :
  (List.length t < n)%nat -> split_fuel n t = split t.
Proof.
  intros H. unfold split. apply split_fuel_irrelevant; lia.
Qed.

(** ** The regular expression *)

Lemma many_fails_on_class (A : Type) (p : ascii -> bool) (k : str -> option A) :
  (forall c u, p c = true -> k (c :: u) = None) ->
  forall t, Re.many p t k = k (drop_while p t).
Proof.
  intros Hk. induction t as [|c t IH]; simpl; [reflexivity|].
  destruct (p c) eqn:E; [|reflexivity].
  rewrite IH. destruct (k (drop_while p t)); [reflexivity|].
  apply Hk. exact E.
Qed.

Lemma many_takes_all (A : Type) (p : ascii -> bool) (k : str -> option A) :
  (forall u, k u <> None) ->
  forall t, Re.many p t k = k (drop_while p t).
Proof.
  intros Hk. induction t as [|c t IH]; simpl; [reflexivity|].
  destruct (p c) eqn:E; [|reflexivity].
  rewrite IH. destruct (k (drop_while p t)) eqn:K; [reflexivity|].
  exfalso. exact (Hk _ K).
Qed.

Lemma go_lits (A : Type) (pfx : str) (r : Re.regex) (t g : str)
      (k : str -> str -> option A) :
  Re.go (Re.lits pfx r) t g k
  = match strip_prefix pfx t with
    | Some u => Re.go r u g k
    | None => None
    end.
Proof.
  revert t. induction pfx as [|c pfx IH]; intros t; simpl; [reflexivity|].
  destruct t as [|x t]; [reflexivity|].
  destruct (chr_eqb x c); [apply IH | reflexivity].
Qed.

Lemma firstn_take_while (p : ascii -> bool) (t : str) :
  firstn (List.length t - List.length (drop_while p t)) t = take_while p t.
Proof.
  pose proof (take_drop_while p t) as H.
  assert (L : (List.length t - List.length (drop_while p t)
               = List.length (take_while p t))%nat).
  { rewrite <- H at 1. rewrite length_app. lia. }
  rewrite L. rewrite <- H at 2.
  rewrite firstn_app, firstn_all, Nat.sub_diag. simpl. apply app_nil_r.
Qed.

Lemma underscore_not_digit (c : ascii) :
  is_digit c = true -> chr_eqb c "_"%char = false.
Proof.
  intros H. destruct (chr_eqb c "_"%char) eqn:E; [|reflexivity].
  apply chr_eqb_eq in E. subst c. discriminate.
Qed.

(** Backtracking finds nothing that the direct reading misses. *)
Lemma match_uniref_at_head (t : str) :
  Re.match_ uniref_pattern t = uniref_at_head t.
Proof.
  unfold Re.match_, uniref_pattern, uniref_at_head.
  rewrite go_lits.
  destruct (strip_prefix (txt "UniRef") t) as [[|d t1]|]; try reflexivity.
  simpl. destruct (is_digit d); [|reflexivity].
  rewrite many_fails_on_class.
  2:{ intros c u Hc. rewrite (underscore_not_digit _ Hc). reflexivity. }
  destruct (drop_while is_digit t1) as [|u [|x t2]]; try reflexivity.
  - destruct (chr_eqb u "_"%char); reflexivity.
  - destruct (chr_eqb u "_"%char); [|reflexivity].
    destruct (is_upper_or_digit x); [|reflexivity].
    rewrite many_takes_all by discriminate.
    f_equal.
    pose proof (firstn_take_while is_upper_or_digit t2) as F.
    pose proof (drop_while_length is_upper_or_digit t2) as L.
    replace (List.length (x :: t2) - List.length (drop_while is_upper_or_digit t2))%nat
      with (S (List.length t2 - List.length (drop_while is_upper_or_digit t2)))
      by (change (List.length (x :: t2)) with (S (List.length t2)); lia).
    simpl. rewrite F. reflexivity.
Qed.

Lemma strip_prefix_app (pfx t u : str) :
  strip_prefix pfx t = Some u <-> t = pfx ++ u.
Proof.
  revert t. induction pfx as [|c pfx IH]; intros t; simpl.
  - split; congruence.
  - destruct t as [|x t]; [split; discriminate|].
    destruct (chr_eqb x c) eqn:E.
    + apply chr_eqb_eq in E. subst x. rewrite IH. split; congruence.
    + split; [discriminate|]. intros H. injection H as -> _.
      rewrite chr_eqb_refl in E. discriminate.
Qed.

Lemma take_while_stops (p : ascii -> bool) (a rest : str) :
  forallb p a = true ->
  match rest with [] => True | c :: _ => p c = false end ->
  take_while p (a ++ rest) = a.
Proof.
  intros Ha Hr. rewrite take_while_app by exact Ha.
  destruct rest as [|c rest]; simpl; [|rewrite Hr]; apply app_nil_r.
Qed.

Lemma uniref_at_head_iff (t run : str) :
  uniref_at_head t = Some run <-> uniref_match t [] run.
Proof.
  unfold uniref_at_head, uniref_match. split.
  - destruct (strip_prefix (txt "UniRef") t) as [[|d t1]|] eqn:P; try discriminate.
    apply strip_prefix_app in P.
    destruct (is_digit d) eqn:Dd; [|discriminate].
    destruct (drop_while is_digit t1) as [|u [|x t2]] eqn:Dr; try discriminate.
    destruct (chr_eqb u "_"%char) eqn:U; [|discriminate].
    destruct (is_upper_or_digit x) eqn:X; [|discriminate].
    intros H. injection H as <-. apply chr_eqb_eq in U. subst u.
    exists (d :: take_while is_digit t1), (drop_while is_upper_or_digit t2).
    repeat split.
    + rewrite P. simpl. do 7 f_equal.
      rewrite <- (take_drop_while is_digit t1) at 1. rewrite Dr.
      f_equal. f_equal. f_equal. symmetry. apply take_drop_while.
    + discriminate.
    + simpl. rewrite Dd. apply take_while_all.
    + discriminate.
    + simpl. rewrite X. apply take_while_all.
    + apply drop_while_head.
  - intros (digits & rest & E & Hd & Hdig & Hr & Hrun & Hrest).
    simpl in E. subst t.
    destruct digits as [|d ds]; [congruence|].
    destruct run as [|x rs]; [congruence|].
    simpl in Hdig, Hrun. apply andb_true_iff in Hdig, Hrun.
    destruct Hdig as [Dd Dds]. destruct Hrun as [X Xs].
    simpl. repeat rewrite chr_eqb_refl. simpl. rewrite Dd.
    rewrite drop_while_app by exact Dds. simpl.
    rewrite X. rewrite take_while_stops by assumption. reflexivity.
Qed.

Lemma uniref_match_suffix (header pre run : str) :
  uniref_match header pre run
  <-> exists suf, header = pre ++ suf /\ Re.match_ uniref_pattern suf = Some run.
Proof.
  split.
  - intros (digits & rest & E & H).
    exists (txt "UniRef" ++ digits ++ "_"%char :: run ++ rest). split; [exact E|].
    rewrite match_uniref_at_head. apply uniref_at_head_iff.
    exists digits, rest. split; [reflexivity | exact H].
  - intros (suf & E & M). rewrite match_uniref_at_head in M.
    apply uniref_at_head_iff in M.
    destruct M as (digits & rest & E' & H). simpl in E'.
    exists digits, rest. split; [|exact H]. subst. reflexivity.
Qed.

Lemma search_none (r : Re.regex) (t : str) :
  Re.search r t = None
  <-> forall pre suf, t = pre ++ suf -> Re.match_ r suf = None.
Proof.
  induction t as [|c t IH]; simpl.
  - destruct (Re.match_ r []) eqn:M.
    + split; [discriminate|]. intros H. rewrite (H [] []) in M by reflexivity.
      discriminate.
    + split; [|reflexivity]. intros _ pre suf E.
      symmetry in E. apply app_eq_nil in E. destruct E as [_ ->]. exact M.
  - destruct (Re.match_ r (c :: t)) eqn:M.
    + split; [discriminate|]. intros H.
      rewrite (H [] (c :: t)) in M by reflexivity. discriminate.
    + rewrite IH. split.
      * intros H [|x pre] suf E; simpl in E.
        -- subst suf. exact M.
        -- injection E as _ E. exact (H pre suf E).
      * intros H pre suf E. apply (H (c :: pre) suf). simpl. congruence.
Qed.

Lemma search_some (r : Re.regex) (t g : str) :
  Re.search r t = Some g ->
  exists pre suf,
    t = pre ++ suf /\ Re.match_ r suf = Some g
    /\ forall pre' suf', t = pre' ++ suf' ->
         (List.length pre' < List.length pre)%nat -> Re.match_ r suf' = None.
Proof.
  induction t as [|c t IH]; simpl.
  - destruct (Re.match_ r []) eqn:M; [|discriminate].
    intros H. injection H as <-. exists [], []. repeat split; [exact M|].
    intros pre' suf' _ L. simpl in L. lia.
  - destruct (Re.match_ r (c :: t)) eqn:M.
    + intros H. injection H as <-. exists [], (c :: t).
      repeat split; [exact M|]. intros pre' suf' _ L. simpl in L. lia.
    + intros H. destruct (IH H) as (pre & suf & E & Ms & Hl).
      exists (c :: pre), suf. repeat split.
      * simpl. congruence.
      * exact Ms.
      * intros [|x pre'] suf' E' L; simpl in E'.
        -- subst suf'. exact M.
        -- injection E' as _ E'. apply (Hl pre' suf' E'). simpl in L. lia.
Qed.

Lemma same_length_prefix (A : Type) (a b c d : list A) :
  a ++ b = c ++ d -> List.length a = List.length c -> a = c /\ b = d.
Proof.
  revert c. induction a as [|x a IH]; intros [|y c] E L; simpl in *;
    try discriminate.
  - split; [reflexivity | exact E].
  - injection E as -> E. injection L as L.
    destruct (IH c E L) as [-> ->]. split; reflexivity.
Qed.

(** ** Tokens *)

Lemma fallback_blank (header : str) :
  forallb is_space header = true ->
  first_token_fallback header = Raise IndexError.
Proof.
  intros H. unfold first_token_fallback.
  apply split_nil_iff in H. rewrite H. reflexivity.
Qed.

Lemma fallback_token (header : str) :
  forallb is_space header = false ->
  first_token_fallback header
  = Ok (filter (fun c => negb (chr_eqb c gt_char)) (first_token header)).
Proof.
  intros H. unfold first_token_fallback.
  destruct (split_head header H) as [rest ->]. simpl.
  rewrite replace_nil_filter. reflexivity.
Qed.

Lemma extract_total_on_words (header : str) :
  forallb is_space header = false ->
  exists uid, _extract_uniref_id header = Ok uid.
Proof.
  intros H. unfold _extract_uniref_id.
  destruct (Re.search uniref_pattern header) as [g|]; [eexists; reflexivity|].
  rewrite fallback_token by exact H. eexists; reflexivity.
Qed.

(** ** The reader *)

Lemma collect_descriptions (title : str) (body ls : list str) :
  map SeqIO.description (SeqIO.collect title body ls)
  = title :: map SeqIO.title_of (filter SeqIO.is_marker ls).
Proof.
  revert title body. induction ls as [|l ls IH]; intros title body; simpl.
  - reflexivity.
  - destruct (SeqIO.is_marker l); simpl; rewrite IH; reflexivity.
Qed.

(** One record for each marker line, in the order of the lines. *)
Lemma parse_lines_descriptions (ls : list str) (records : list SeqIO.SeqRecord) :
  SeqIO.parse_lines ls = Ok records ->
  map SeqIO.description records
  = map SeqIO.title_of (filter SeqIO.is_marker ls).
Proof.
  unfold SeqIO.parse_lines. destruct ls as [|l ls].
  - intros H. injection H as <-. reflexivity.
  - simpl. destruct (SeqIO.is_marker l); [|discriminate].
    intros H. injection H as <-. apply collect_descriptions.
Qed.

Lemma readlines_app (pre rest : str) :
  pre = [] \/ last pre "x"%char = SeqIO.LF ->
  SeqIO.readlines (pre ++ rest) = SeqIO.readlines pre ++ SeqIO.readlines rest.
Proof.
  induction pre as [|c pre IH]; intros H; [reflexivity|].
  destruct H as [H|H]; [discriminate|].
  simpl. destruct (chr_eqb c SeqIO.LF) eqn:E.
  - destruct pre as [|c' pre']; [reflexivity|].
    rewrite IH; [reflexivity|]. right. exact H.
  - destruct pre as [|c' pre'].
    + simpl in H. subst c. rewrite chr_eqb_refl in E. discriminate.
    + rewrite IH by (right; exact H).
      assert (N : SeqIO.readlines (c' :: pre') <> []).
      { simpl. destruct (chr_eqb c' SeqIO.LF); [discriminate|].
        destruct (SeqIO.readlines pre'); discriminate. }
      destruct (SeqIO.readlines (c' :: pre')) as [|l ls]; [congruence|].
      reflexivity.
Qed.

Lemma readlines_nil (b : str) : SeqIO.readlines b = [] -> b = [].
Proof.
  destruct b as [|c b]; [reflexivity|]. simpl.
  destruct (chr_eqb c SeqIO.LF); [discriminate|].
  destruct (SeqIO.readlines b); discriminate.
Qed.

(** The first line of a text starts as the text does. *)
Lemma readlines_first_marker (b : str) :
  match SeqIO.readlines b with
  | [] => True
  | lb :: _ => SeqIO.is_marker lb = SeqIO.is_marker b
  end.
Proof.
  destruct b as [|c b]; [exact I|]. simpl.
  destruct (chr_eqb c SeqIO.LF); [reflexivity|].
  destruct (SeqIO.readlines b); reflexivity.
Qed.

(** The reader raises exactly on a text that is not empty and does not
    start with the marker, and then [ValueError]. *)
Lemma reader_raise_iff (text : str) (e : exn) :
  SeqIO.parse text = Raise e
  <-> e = ValueError /\ text <> [] /\ SeqIO.is_marker text = false.
Proof.
  unfold SeqIO.parse, SeqIO.parse_lines.
  pose proof (readlines_first_marker text) as F.
  pose proof (@readlines_nil text) as N.
  destruct (SeqIO.readlines text) as [|l ls] eqn:R.
  - rewrite (N eq_refl). split; [discriminate|]. intros (_ & H & _). congruence.
  - rewrite F. destruct (SeqIO.is_marker text).
    + split; [discriminate|]. intros (_ & _ & H). discriminate.
    + split.
      * intros H. injection H as <-. repeat split.
        intros ->. discriminate R.
      * intros (-> & _). reflexivity.
Qed.

Lemma reader_ok_marker (text : str) (records : list SeqIO.SeqRecord) :
  SeqIO.parse text = Ok records ->
  (text = [] /\ records = [])
  \/ (SeqIO.is_marker text = true /\ records <> []).
Proof.
  unfold SeqIO.parse, SeqIO.parse_lines.
  pose proof (readlines_first_marker text) as F.
  pose proof (@readlines_nil text) as N.
  destruct (SeqIO.readlines text) as [|l ls].
  - intros H. injection H as <-. left. split; [exact (N eq_refl) | reflexivity].
  - rewrite F. destruct (SeqIO.is_marker text); [|discriminate].
    intros H. injection H as <-. right. split; [reflexivity|].
    destruct ls as [|l' ls]; simpl; [discriminate|].
    destruct (SeqIO.is_marker l'); [discriminate|].
    intros H. apply (f_equal (map SeqIO.description)) in H.
    rewrite collect_descriptions in H. discriminate.
Qed.

Lemma reader_total (text : str) :
  SeqIO.is_marker text = true -> exists records, SeqIO.parse text = Ok records.
Proof.
  intros M. destruct (SeqIO.parse text) as [records|e] eqn:E;
    [eexists; reflexivity|].
  apply reader_raise_iff in E. destruct E as (_ & _ & E). congruence.
Qed.

Lemma records_titles (text : str) (records : list SeqIO.SeqRecord) :
  SeqIO.parse text = Ok records ->
  map SeqIO.description records
  = map SeqIO.title_of (filter SeqIO.is_marker (SeqIO.readlines text)).
Proof. apply parse_lines_descriptions. Qed.

Lemma blank_is_ascii (c : ascii) :
  SeqIO.is_blank c = true -> SeqIO.is_ascii c = true.
Proof.
  unfold SeqIO.is_blank, SeqIO.is_ascii. intros H.
  apply Nat.ltb_lt.
  repeat (apply orb_true_iff in H; destruct H as [H|H]);
    apply Nat.eqb_eq in H; lia.
Qed.

Lemma filter_blank_ascii (l : str) :
  forallb SeqIO.is_ascii (filter (fun c => negb (SeqIO.is_blank c)) l)
  = forallb SeqIO.is_ascii l.
Proof.
  induction l as [|c l IH]; simpl; [reflexivity|].
  destruct (SeqIO.is_blank c) eqn:B; simpl.
  - rewrite (blank_is_ascii _ B). exact IH.
  - rewrite IH. reflexivity.
Qed.

Lemma forallb_concat (A : Type) (p : A -> bool) (ls : list (list A)) :
  forallb p (concat ls) = forallb (forallb p) ls.
Proof.
  induction ls as [|l ls IH]; simpl; [reflexivity|].
  rewrite forallb_app, IH. reflexivity.
Qed.

Lemma make_record_ascii (title : str) (body : list str) :
  forallb SeqIO.is_ascii (SeqIO.seq (SeqIO.make_record title body))
  = forallb (forallb SeqIO.is_ascii) body.
Proof. simpl. rewrite filter_blank_ascii. apply forallb_concat. Qed.

(** The sequences of the records are ASCII exactly when the lines they
    come from are. *)
Lemma collect_ascii (title : str) (body ls : list str) :
  forallb (fun sr => forallb SeqIO.is_ascii (SeqIO.seq sr))
          (SeqIO.collect title body ls)
  = forallb (forallb SeqIO.is_ascii) body
    && forallb (forallb SeqIO.is_ascii)
               (filter (fun l => negb (SeqIO.is_marker l)) ls).
Proof.
  revert title body. induction ls as [|l ls IH]; intros title body.
  - cbn [SeqIO.collect forallb filter]. rewrite make_record_ascii. reflexivity.
  - cbn [SeqIO.collect filter]. destruct (SeqIO.is_marker l).
    + cbn [forallb negb]. rewrite make_record_ascii, IH. reflexivity.
    + cbn [negb forallb]. rewrite IH, forallb_app. cbn [forallb].
      rewrite andb_true_r, andb_assoc. reflexivity.
Qed.

Lemma records_ascii (text : str) (records : list SeqIO.SeqRecord) :
  SeqIO.parse text = Ok records ->
  forallb (fun sr => forallb SeqIO.is_ascii (SeqIO.seq sr)) records
  = forallb (forallb SeqIO.is_ascii)
            (filter (fun l => negb (SeqIO.is_marker l)) (SeqIO.readlines text)).
Proof.
  unfold SeqIO.parse, SeqIO.parse_lines.
  destruct (SeqIO.readlines text) as [|l ls].
  - intros H. injection H as <-. reflexivity.
  - cbn [filter]. destruct (SeqIO.is_marker l); [|discriminate].
    intros H. injection H as <-. rewrite collect_ascii. reflexivity.
Qed.

(** ** The loop of [parse] *)

Lemma enrich_all_rows (records : list SeqIO.SeqRecord) (data : list Row) :
  enrich_all records = Ok data ->
  Forall2 (fun rec row => enrich rec = Ok row) records data.
Proof.
  revert data. induction records as [|r rs IH]; intros data; simpl.
  - intros H. injection H as <-. constructor.
  - destruct (enrich r) as [row|e] eqn:E; simpl; [|discriminate].
    destruct (enrich_all rs) as [rest|e] eqn:R; simpl; [|discriminate].
    intros H. injection H as <-. constructor; [exact E | apply IH; reflexivity].
Qed.

Lemma seq_str_ok (data t : str) :
  SeqIO.seq_str data = Ok t -> t = data /\ forallb SeqIO.is_ascii data = true.
Proof.
  unfold SeqIO.seq_str. destruct (forallb SeqIO.is_ascii data); [|discriminate].
  intros H. injection H as <-. split; reflexivity.
Qed.

(** What a row is made of when the loop body returns one. *)
Lemma enrich_ok_inv (sr : SeqIO.SeqRecord) (row : Row) :
  enrich sr = Ok row ->
  exists uid,
    _extract_uniref_id (SeqIO.description sr) = Ok uid
    /\ forallb SeqIO.is_ascii (SeqIO.seq sr) = true
    /\ row = {| id := SeqIO.id sr;
                uniref_id := uid;
                full_header := SeqIO.description sr;
                sequence := SeqIO.seq sr;
                length := List.length (SeqIO.seq sr);
                gap_count := count gap_char (SeqIO.seq sr);
                gap_percentage :=
                  round2
                    (if (0 <? List.length (SeqIO.seq sr))%nat
                     then float_mul
                            (int_truediv
                               (Z.of_nat (count gap_char (SeqIO.seq sr)))
                               (Z.of_nat (List.length (SeqIO.seq sr)))) 100
                     else 0) |}.
Proof.
  unfold enrich.
  destruct (_extract_uniref_id (SeqIO.description sr)) as [uid|e]; simpl;
    [|discriminate].
  destruct (SeqIO.seq_str (SeqIO.seq sr)) as [t|e] eqn:S; simpl; [|discriminate].
  destruct (seq_str_ok _ S) as [-> A].
  intros H. injection H as <-. exists uid. repeat split. exact A.
Qed.

Lemma enrich_ok_intro (sr : SeqIO.SeqRecord) :
  forallb is_space (SeqIO.description sr) = false ->
  forallb SeqIO.is_ascii (SeqIO.seq sr) = true ->
  exists row, enrich sr = Ok row.
Proof.
  intros B A. unfold enrich.
  destruct (extract_total_on_words _ B) as [uid ->]. simpl.
  unfold SeqIO.seq_str. rewrite A. simpl. eexists. reflexivity.
Qed.

Lemma enrich_header (rec : SeqIO.SeqRecord) (row : Row) :
  enrich rec = Ok row -> full_header row = SeqIO.description rec.
Proof.
  intros H. destruct (enrich_ok_inv _ H) as (uid & _ & _ & ->). reflexivity.
Qed.

Lemma enrich_all_headers (records : list SeqIO.SeqRecord) (data : list Row) :
  enrich_all records = Ok data ->
  map full_header data = map SeqIO.description records.
Proof.
  intros H. apply enrich_all_rows in H.
  induction H as [|rec row rs data E _ IH]; simpl; [reflexivity|].
  rewrite IH, (enrich_header _ E). reflexivity.
Qed.

Lemma enrich_all_total (records : list SeqIO.SeqRecord) :
  Forall (fun rec => forallb is_space (SeqIO.description rec) = false
                     /\ forallb SeqIO.is_ascii (SeqIO.seq rec) = true)
         records ->
  exists data, enrich_all records = Ok data.
Proof.
  induction 1 as [|rec rs [B A] _ [data IH]]; simpl; [eexists; reflexivity|].
  destruct (enrich_ok_intro _ B A) as [row ->]. simpl.
  rewrite IH. simpl. eexists; reflexivity.
Qed.

Lemma enrich_all_nil (records : list SeqIO.SeqRecord) :
  enrich_all records = Ok [] -> records = [].
Proof.
  destruct records as [|sr rs]; [reflexivity|]. simpl.
  destruct (enrich sr); simpl; [|discriminate].
  destruct (enrich_all rs); simpl; discriminate.
Qed.

Lemma getitem_make_frame (A : Type) (data : list Row) (c : column)
      (proj : Row -> A) :
  data <> [] -> getitem (make_frame data) c proj = Ok (map proj data).
Proof.
  intros H. destruct data as [|r data]; [congruence|].
  unfold getitem. simpl. destruct c; reflexivity.
Qed.

Lemma getitem_empty_frame (A : Type) (c : column) (proj : Row -> A) :
  getitem (make_frame []) c proj = Raise KeyError.
Proof. reflexivity. Qed.

(** What [parse] returns when it returns: the frame of the enriched
    records, never an empty one. *)
Lemma parse_ok_inv (float_sum : list Q -> Q) (text : str) (df : DataFrame) :
  parse float_sum text = Ok df ->
  exists records data,
    SeqIO.parse text = Ok records
    /\ enrich_all records = Ok data /\ data <> []
    /\ df = make_frame data.
Proof.
  unfold parse. destruct (SeqIO.parse text) as [records|e]; simpl;
    [|discriminate].
  destruct (enrich_all records) as [data|e] eqn:E; simpl; [|discriminate].
  destruct data as [|r data]; [discriminate|].
  rewrite !getitem_make_frame by discriminate. simpl.
  intros H. injection H as <-. exists records, (r :: data).
  split; [reflexivity|]. split; [exact E|].
  split; [discriminate | reflexivity].
Qed.

Lemma parse_ok_intro (float_sum : list Q -> Q) (text : str)
      (records : list SeqIO.SeqRecord) (data : list Row) :
  SeqIO.parse text = Ok records ->
  enrich_all records = Ok data -> data <> [] ->
  parse float_sum text = Ok (make_frame data).
Proof.
  intros R E N. unfold parse. rewrite R. simpl. rewrite E. simpl.
  rewrite !getitem_make_frame by exact N. reflexivity.
Qed.

Lemma parse_ok_titles (float_sum : list Q -> Q) (text : str) (df : DataFrame) :
  parse float_sum text = Ok df ->
  map full_header (rows df)
  = map SeqIO.title_of (filter SeqIO.is_marker (SeqIO.readlines text)).
Proof.
  intros P. destruct (parse_ok_inv _ _ P) as (records & data & R & E & _ & ->).
  simpl. rewrite (enrich_all_headers _ E). apply records_titles. exact R.
Qed.

Lemma enrich_all_in (records : list SeqIO.SeqRecord) (data : list Row)
      (r : Row) :
  enrich_all records = Ok data -> In r data ->
  exists sr, In sr records /\ enrich sr = Ok r.
Proof.
  intros E. apply enrich_all_rows in E.
  induction E as [|sr0 row rs data' Er _ IH]; intros Hin; [contradiction|].
  destruct Hin as [<-|Hin].
  - exists sr0. split; [left; reflexivity | exact Er].
  - destruct (IH Hin) as (sr & Hsr & Esr). exists sr. split; [right|]; assumption.
Qed.

Lemma parsed_row (float_sum : list Q -> Q) (text : str) (df : DataFrame)
      (r : Row) :
  parse float_sum text = Ok df -> In r (rows df) ->
  exists records sr,
    SeqIO.parse text = Ok records /\ In sr records /\ enrich sr = Ok r.
Proof.
  intros P Hin.
  destruct (parse_ok_inv _ _ P) as (records & data & R & E & _ & ->).
  destruct (@enrich_all_in _ _ r E Hin) as (sr & Hsr & Er).
  exists records, sr. repeat split; assumption.
Qed.

(** ** Rounding *)

Section Rounding.
Open Scope Z_scope.

Lemma rne_div_le (a b c : Z) : 0 < b -> a <= c * b -> rne_div a b <= c.
Proof.
  intros Hb H. unfold rne_div.
  pose proof (Z.div_mod a b ltac:(lia)) as D.
  pose proof (Z.mod_pos_bound a b Hb) as M.
  assert (Q1 : a / b <= c) by nia.
  destruct (2 * (a mod b) <? b) eqn:E1; [exact Q1|].
  apply Z.ltb_ge in E1.
  assert (Q2 : a / b + 1 <= c) by nia.
  destruct (b <? 2 * (a mod b)); [exact Q2|].
  destruct (Z.even (a / b)); lia.
Qed.

Lemma rne_div_ge (a b c : Z) : 0 < b -> c * b <= a -> c <= rne_div a b.
Proof.
  intros Hb H. unfold rne_div.
  pose proof (Z.div_mod a b ltac:(lia)) as D.
  pose proof (Z.mod_pos_bound a b Hb) as M.
  assert (Q1 : c <= a / b) by nia.
  destruct (2 * (a mod b) <? b); [exact Q1|].
  destruct (b <? 2 * (a mod b)); [lia|].
  destruct (Z.even (a / b)); lia.
Qed.

Lemma rne_div_nearest (a b : Z) :
  0 < b -> 2 * Z.abs (rne_div a b * b - a) <= b.
Proof.
  intros Hb. unfold rne_div.
  pose proof (Z.div_mod a b ltac:(lia)) as D.
  pose proof (Z.mod_pos_bound a b Hb) as M.
  destruct (2 * (a mod b) <? b) eqn:E1.
  - apply Z.ltb_lt in E1. lia.
  - apply Z.ltb_ge in E1. destruct (b <? 2 * (a mod b)) eqn:E2.
    + lia.
    + apply Z.ltb_ge in E2. destruct (Z.even (a / b)); lia.
Qed.

Lemma rne_div_exact (b c : Z) : 0 < b -> rne_div (c * b) b = c.
Proof.
  intros Hb. apply Z.le_antisymm;
    [apply rne_div_le | apply rne_div_ge]; lia.
Qed.

Lemma ilog2_lower (p q : Z) :
  0 < p -> 0 < q -> 0 <= ilog2 p q -> q * 2 ^ ilog2 p q <= p.
Proof.
  intros Hp Hq. unfold ilog2.
  pose proof (Z.log2_spec p Hp) as [Lp _].
  pose proof (Z.log2_spec q Hq) as [_ Uq].
  pose proof (Z.log2_nonneg p) as Np.
  pose proof (Z.log2_nonneg q) as Nq.
  set (lp := Z.log2 p) in *. set (lq := Z.log2 q) in *.
  destruct (0 <=? lp - lq) eqn:D.
  - apply Z.leb_le in D.
    destruct (q * 2 ^ (lp - lq) <=? p) eqn:E.
    + intros _. apply Z.leb_le in E. exact E.
    + intros H.
      assert (P1 : 2 ^ lp = 2 ^ (lq + 1) * 2 ^ (lp - lq - 1)).
      { rewrite <- Z.pow_add_r by lia. f_equal. lia. }
      assert (P2 : 0 < 2 ^ (lp - lq - 1)) by (apply Z.pow_pos_nonneg; lia).
      nia.
  - apply Z.leb_gt in D.
    destruct (q <=? p * 2 ^ (- (lp - lq))); intros H; lia.
Qed.

Lemma two_pow_pos (k : Z) : 0 <= k -> Z.pos (Z.to_pos (2 ^ k)) = 2 ^ k.
Proof.
  intros H. apply Z2Pos.id. apply Z.pow_pos_nonneg; lia.
Qed.

Lemma round53_pos_le (p q c : Z) :
  0 < p -> 0 < q -> c < 2 ^ 53 -> p <= c * q ->
  (round53_pos p q <= inject_Z c)%Q.
Proof.
  intros Hp Hq Hc H. unfold round53_pos.
  destruct (0 <=? ilog2 p q - 52) eqn:E.
  - apply Z.leb_le in E.
    pose proof (ilog2_lower Hp Hq ltac:(lia)) as L.
    assert (E0 : ilog2 p q = 52).
    { destruct (Z.le_gt_cases 53 (ilog2 p q)) as [G|G]; [|lia].
      pose proof (Z.pow_le_mono_r 2 53 (ilog2 p q) ltac:(lia) G). nia. }
    rewrite E0. change (2 ^ (52 - 52)) with 1.
    rewrite <- Zle_Qle. rewrite Z.mul_1_r.
    apply rne_div_le; lia.
  - apply Z.leb_gt in E.
    set (k := - (ilog2 p q - 52)) in *.
    assert (K : 0 < 2 ^ k) by (apply Z.pow_pos_nonneg; lia).
    unfold Qle. simpl. rewrite two_pow_pos by lia.
    rewrite Z.mul_1_r. apply rne_div_le; [exact Hq | nia].
Qed.

Lemma round53_pos_ge (p q c : Z) :
  0 < p -> 0 < q -> c < 2 ^ 53 -> c * q <= p ->
  (inject_Z c <= round53_pos p q)%Q.
Proof.
  intros Hp Hq Hc H. unfold round53_pos.
  destruct (0 <=? ilog2 p q - 52) eqn:E.
  - apply Z.leb_le in E.
    pose proof (ilog2_lower Hp Hq ltac:(lia)) as L.
    set (e := ilog2 p q - 52) in *.
    assert (K : 0 < 2 ^ e) by (apply Z.pow_pos_nonneg; lia).
    rewrite <- Zle_Qle.
    destruct (Z.eq_dec e 0) as [E0|E0].
    + rewrite E0. change (2 ^ 0) with 1. rewrite Z.mul_1_r.
      apply rne_div_ge; lia.
    + assert (P : 2 ^ ilog2 p q = 2 ^ 52 * 2 ^ e).
      { rewrite <- Z.pow_add_r by lia. f_equal. unfold e. lia. }
      assert (M : 2 ^ 52 <= rne_div p (q * 2 ^ e)).
      { apply rne_div_ge; nia. }
      assert (T : 2 ^ 1 <= 2 ^ e) by (apply Z.pow_le_mono_r; lia).
      change (2 ^ 1) with 2 in T.
      change (2 ^ 53) with (2 ^ 52 * 2) in Hc.
      assert (0 < 2 ^ 52) by reflexivity. nia.
  - apply Z.leb_gt in E.
    set (k := - (ilog2 p q - 52)) in *.
    assert (K : 0 < 2 ^ k) by (apply Z.pow_pos_nonneg; lia).
    unfold Qle. simpl. rewrite two_pow_pos by lia.
    rewrite Z.mul_1_r. apply rne_div_ge; [exact Hq | nia].
Qed.

End Rounding.

Lemma fl_zero (x : Q) : Qnum x = 0%Z -> fl x = 0.
Proof. intros H. unfold fl. rewrite H. reflexivity. Qed.

(** Rounding does not cross an integer that a float holds exactly. *)
Lemma fl_le_int (x : Q) (c : Z) :
  (0 <= c < 2 ^ 53)%Z -> x <= inject_Z c -> fl x <= inject_Z c.
Proof.
  intros Hc H. unfold fl. rewrite Qred_correct.
  destruct x as [n d]. unfold Qle in H. simpl in H. simpl.
  destruct n as [|n|n].
  - change (inject_Z 0 <= inject_Z c). rewrite <- Zle_Qle. lia.
  - apply round53_pos_le; lia.
  - apply Qle_trans with 0.
    + assert (G : inject_Z 0 <= round53_pos (Z.pos n) (Z.pos d))
        by (apply round53_pos_ge; lia).
      change (inject_Z 0) with 0 in G.
      apply Qopp_le_compat in G. exact G.
    + change (inject_Z 0 <= inject_Z c). rewrite <- Zle_Qle. lia.
Qed.

Lemma fl_ge_int (x : Q) (c : Z) :
  (0 <= c < 2 ^ 53)%Z -> inject_Z c <= x -> inject_Z c <= fl x.
Proof.
  intros Hc H. unfold fl. rewrite Qred_correct.
  destruct x as [n d]. unfold Qle in H. simpl in H. simpl.
  destruct n as [|n|n].
  - change (inject_Z c <= inject_Z 0). rewrite <- Zle_Qle. lia.
  - apply round53_pos_ge; lia.
  - exfalso. lia.
Qed.

Lemma fl_int (c : Z) : (0 <= c < 2 ^ 53)%Z -> fl (inject_Z c) == inject_Z c.
Proof.
  intros Hc. apply Qle_antisym;
    [apply fl_le_int | apply fl_ge_int]; try exact Hc; apply Qle_refl.
Qed.

Lemma rne_le (x : Q) (c : Z) : x <= inject_Z c -> (rne x <= c)%Z.
Proof.
  intros H. unfold rne. apply rne_div_le; [reflexivity|].
  unfold Qle in H. simpl in H. lia.
Qed.

Lemma rne_ge (x : Q) (c : Z) : inject_Z c <= x -> (c <= rne x)%Z.
Proof.
  intros H. unfold rne. apply rne_div_ge; [reflexivity|].
  unfold Qle in H. simpl in H. lia.
Qed.

Lemma round2_bounds (x : Q) : 0 <= x <= 100 -> 0 <= round2 x <= 100.
Proof.
  intros [H0 H1]. unfold round2.
  assert (L : (0 <= rne (x * 100))%Z).
  { apply rne_ge. change (inject_Z 0) with 0. nra. }
  assert (U : (rne (x * 100) <= 10000)%Z).
  { apply rne_le. change (inject_Z 10000) with 10000. nra. }
  rewrite Zle_Qle in L, U.
  change (inject_Z 0) with 0 in L. change (inject_Z 10000) with 10000 in U.
  split.
  - apply (@fl_ge_int _ 0%Z); [split; [lia | reflexivity]|].
    change (inject_Z 0) with 0. 
    apply Qle_shift_div_l; [reflexivity|]. lra.
  - apply (@fl_le_int _ 100%Z); [split; [lia | reflexivity]|].
    change (inject_Z 100) with 100.
    apply Qle_shift_div_r; [reflexivity|]. lra.
Qed.

Lemma round2_zero (x : Q) : Qnum x = 0%Z -> round2 x = 0.
Proof.
  intros H. unfold round2. apply fl_zero.
  unfold rne. simpl. rewrite H. reflexivity.
Qed.

(** ** The derived fields of a row *)

Lemma enrich_fields (sr : SeqIO.SeqRecord) (row : Row) :
  enrich sr = Ok row ->
  sequence row = SeqIO.seq sr
  /\ length row = List.length (sequence row)
  /\ gap_count row = count gap_char (sequence row)
  /\ gap_percentage row
     = round2 (if (0 <? length row)%nat
               then float_mul (int_truediv (Z.of_nat (gap_count row))
                                           (Z.of_nat (length row))) 100
               else 0)
  /\ _extract_uniref_id (full_header row) = Ok (uniref_id row).
Proof.
  intros H. destruct (enrich_ok_inv _ H) as (uid & E & _ & ->).
  simpl. repeat split. exact E.
Qed.

Lemma quotient_bounds (g n : nat) :
  (0 < n)%nat -> (g <= n)%nat ->
  0 <= inject_Z (Z.of_nat g) / inject_Z (Z.of_nat n) <= 1.
Proof.
  intros Hn Hg.
  assert (Pn : 0 < inject_Z (Z.of_nat n)).
  { change 0 with (inject_Z 0). rewrite <- Zlt_Qlt. lia. }
  split.
  - apply Qle_shift_div_l; [exact Pn|]. rewrite Qmult_0_l.
    change 0 with (inject_Z 0). rewrite <- Zle_Qle. lia.
  - apply Qle_shift_div_r; [exact Pn|]. rewrite Qmult_1_l.
    rewrite <- Zle_Qle. lia.
Qed.

Lemma percentage_bounds (g n : nat) :
  (0 < n)%nat -> (g <= n)%nat ->
  0 <= float_mul (int_truediv (Z.of_nat g) (Z.of_nat n)) 100 <= 100.
Proof.
  intros Hn Hg. destruct (quotient_bounds Hn Hg) as [L U].
  unfold float_mul, int_truediv.
  set (x := fl (inject_Z (Z.of_nat g) / inject_Z (Z.of_nat n))).
  assert (X0 : 0 <= x).
  { apply (@fl_ge_int _ 0%Z); [split; [lia | reflexivity] | exact L]. }
  assert (X1 : x <= 1).
  { apply (@fl_le_int _ 1%Z); [split; [lia | reflexivity] | exact U]. }
  split.
  - apply (@fl_ge_int _ 0%Z); [split; [lia | reflexivity]|].
    change (inject_Z 0) with 0. lra.
  - apply (@fl_le_int _ 100%Z); [split; [lia | reflexivity]|].
    change (inject_Z 100) with 100. lra.
Qed.

Lemma percentage_zero (n : nat) :
  round2 (float_mul (int_truediv 0 (Z.of_nat n)) 100) = 0.
Proof.
  apply round2_zero. unfold float_mul, int_truediv.
  rewrite (@fl_zero (inject_Z 0 / inject_Z (Z.of_nat n))) by reflexivity.
  reflexivity.
Qed.

(** ** Lookup *)

Lemma filter_head_find (A : Type) (p : A -> bool) (l : list A) :
  match filter p l with
  | [] => find p l = None
  | x :: _ => find p l = Some x
  end.
Proof.
  induction l as [|a l IH]; simpl; [reflexivity|].
  destruct (p a); [reflexivity | exact IH].
Qed.

(** ** Sums, minima and maxima of a column *)

Lemma sumZ_lower (m : nat) (l : list nat) :
  (forall y, In y l -> (m <= y)%nat) ->
  (Z.of_nat m * Z.of_nat (List.length l) <= sumZ l)%Z.
Proof.
  induction l as [|x l IH]; intros H; simpl sumZ; simpl List.length; [lia|].
  pose proof (H x (or_introl eq_refl)).
  pose proof (IH (fun y Hy => H y (or_intror Hy))). lia.
Qed.

Lemma sumZ_upper (m : nat) (l : list nat) :
  (forall y, In y l -> (y <= m)%nat) ->
  (sumZ l <= Z.of_nat m * Z.of_nat (List.length l))%Z.
Proof.
  induction l as [|x l IH]; intros H; simpl sumZ; simpl List.length; [lia|].
  pose proof (H x (or_introl eq_refl)).
  pose proof (IH (fun y Hy => H y (or_intror Hy))). lia.
Qed.

Lemma sumZ_member (l : list nat) (y : nat) :
  In y l -> (Z.of_nat y <= sumZ l)%Z.
Proof.
  assert (N : forall k, (0 <= sumZ k)%Z).
  { induction k as [|x k IH]; simpl; lia. }
  induction l as [|x l IH]; intros H; [contradiction|]. simpl.
  destruct H as [->|H]; [pose proof (N l) | pose proof (IH H)]; lia.
Qed.

Lemma fold_min_lower (x : nat) (l : list nat) :
  forall y, In y (x :: l) -> (fold_right Nat.min x l <= y)%nat.
Proof.
  induction l as [|a l IH]; simpl; intros y H.
  - destruct H as [->|[]]. lia.
  - pose proof (IH x (or_introl eq_refl)).
    destruct H as [->|[->|H]]; [lia | lia |].
    pose proof (IH y (or_intror H)). lia.
Qed.

Lemma fold_max_upper (x : nat) (l : list nat) :
  forall y, In y (x :: l) -> (y <= fold_right Nat.max x l)%nat.
Proof.
  induction l as [|a l IH]; simpl; intros y H.
  - destruct H as [->|[]]. lia.
  - pose proof (IH x (or_introl eq_refl)).
    destruct H as [->|[->|H]]; [lia | lia |].
    pose proof (IH y (or_intror H)). lia.
Qed.

Lemma fold_max_member (x : nat) (l : list nat) :
  In (fold_right Nat.max x l) (x :: l).
Proof.
  induction l as [|a l IH]; simpl; [left; reflexivity|].
  destruct (Nat.max_spec a (fold_right Nat.max x l)) as [[_ ->]|[_ ->]].
  - simpl in IH. destruct IH as [IH|IH]; [left; exact IH | right; right; exact IH].
  - right; left; reflexivity.
Qed.

Lemma filter_length_le (A : Type) (p : A -> bool) (l : list A) :
  (List.length (filter p l) <= List.length l)%nat.
Proof.
  induction l as [|a l IH]; simpl; [lia|]. destruct (p a); simpl; lia.
Qed.

Lemma filter_map_length (A B : Type) (f : A -> B) (p : B -> bool) (l : list A) :
  List.length (filter p (map f l)) = List.length (filter (fun a => p (f a)) l).
Proof.
  induction l as [|a l IH]; simpl; [reflexivity|].
  destruct (p (f a)); simpl; congruence.
Qed.

Lemma mean_between (x : nat) (l : list nat) :
  (sumZ (x :: l) < 2 ^ 53)%Z ->
  number_le (min_int (x :: l)) (mean_int (x :: l))
  /\ number_le (mean_int (x :: l)) (max_int (x :: l)).
Proof.
  intros B.
  pose proof (@fold_min_lower x l) as Hmin.
  pose proof (@fold_max_upper x l) as Hmax.
  pose proof (fold_max_member x l) as Mmax.
  unfold min_int, max_int, mean_int, number_le, number_value, float_div.
  set (lo := fold_right Nat.min x l) in *.
  set (hi := fold_right Nat.max x l) in *.
  set (k := x :: l) in *.
  pose proof (@sumZ_lower lo k Hmin) as SL.
  pose proof (@sumZ_upper hi k Hmax) as SU.
  pose proof (@sumZ_member k hi Mmax) as SM.
  assert (LH : (lo <= hi)%nat) by (apply Hmin; exact Mmax).
  assert (Pn : 0 < inject_Z (Z.of_nat (List.length k))).
  { change 0 with (inject_Z 0). rewrite <- Zlt_Qlt. unfold k. simpl. lia. }
  split.
  - apply fl_ge_int; [lia|].
    apply Qle_shift_div_l; [exact Pn|].
    rewrite <- inject_Z_mult, <- Zle_Qle. exact SL.
  - apply fl_le_int; [lia|].
    apply Qle_shift_div_r; [exact Pn|].
    rewrite <- inject_Z_mult, <- Zle_Qle. exact SU.
Qed.

(** ** Pattern or fallback *)

Lemma extract_without_match (header : str) :
  (forall pre run, ~ uniref_match header pre run) ->
  _extract_uniref_id header = first_token_fallback header.
Proof.
  intros H. unfold _extract_uniref_id.
  destruct (Re.search uniref_pattern header) as [g|] eqn:S; [|reflexivity].
  exfalso. destruct (search_some _ _ S) as (pre & suf & E & M & _).
  apply (H pre g). apply uniref_match_suffix. exists suf. split; assumption.
Qed.

Lemma no_match_of_search (header : str) :
  Re.search uniref_pattern header = None ->
  forall pre run, ~ uniref_match header pre run.
Proof.
  intros S pre run M. apply uniref_match_suffix in M.
  destruct M as (suf & E & M).
  rewrite (proj1 (search_none _ _) S pre suf E) in M. discriminate.
Qed.

Lemma blank_has_no_match (header : str) :
  forallb is_space header = true ->
  forall pre run, ~ uniref_match header pre run.
Proof.
  intros B pre run (digits & rest & E & _). subst header.
  rewrite forallb_app in B. apply andb_true_iff in B. destruct B as [_ B].
  simpl in B. discriminate.
Qed.

Lemma extract_blank (header : str) :
  forallb is_space header = true ->
  _extract_uniref_id header = Raise IndexError.
Proof.
  intros B. rewrite (@extract_without_match header (@blank_has_no_match header B)).
  apply fallback_blank. exact B.
Qed.

(** [parse] returns a frame as soon as the source starts with a marker
    line, every marker line has a word after the marker, and the other
    lines are ASCII. *)
Lemma parse_total (float_sum : list Q -> Q) (text : str) :
  SeqIO.is_marker text = true ->
  Forall (fun l => forallb is_space (SeqIO.title_of l) = false)
         (filter SeqIO.is_marker (SeqIO.readlines text)) ->
  forallb (forallb SeqIO.is_ascii)
          (filter (fun l => negb (SeqIO.is_marker l)) (SeqIO.readlines text))
  = true ->
  exists df, parse float_sum text = Ok df.
Proof.
  intros M F A. destruct (reader_total _ M) as [records R].
  pose proof (records_titles _ R) as D.
  pose proof (records_ascii _ R) as S. rewrite A in S.
  rewrite forallb_forall in S.
  assert (T : Forall (fun sr => forallb is_space (SeqIO.description sr) = false
                                /\ forallb SeqIO.is_ascii (SeqIO.seq sr) = true)
                     records).
  { apply Forall_forall. intros sr Hin. split; [|exact (S sr Hin)].
    apply (in_map SeqIO.description) in Hin. rewrite D in Hin.
    apply in_map_iff in Hin. destruct Hin as (l & <- & Hl).
    rewrite Forall_forall in F. exact (F l Hl). }
  destruct (enrich_all_total T) as [data E].
  exists (make_frame data). apply (parse_ok_intro _ _ R E).
  intros ->. apply enrich_all_nil in E. subst records.
  destruct (reader_ok_marker _ R) as [[-> _]|[_ N]]; [discriminate | congruence].
Qed.

Lemma extract_raise_inv (header : str) (e : exn) :
  _extract_uniref_id header = Raise e ->
  e = IndexError /\ forallb is_space header = true.
Proof.
  unfold _extract_uniref_id.
  destruct (Re.search uniref_pattern header); [discriminate|].
  destruct (forallb is_space header) eqn:B.
  - rewrite (fallback_blank _ B). intros H. injection H as <-.
    split; reflexivity.
  - rewrite (fallback_token _ B). discriminate.
Qed.

(** The loop body raises [IndexError] on a blank header and, the header
    having a word, [UnicodeDecodeError] on a sequence that is not ASCII. *)
Lemma enrich_raise_iff (sr : SeqIO.SeqRecord) (e : exn) :
  enrich sr = Raise e
  <-> (e = IndexError /\ forallb is_space (SeqIO.description sr) = true)
      \/ (e = UnicodeDecodeError
          /\ forallb is_space (SeqIO.description sr) = false
          /\ forallb SeqIO.is_ascii (SeqIO.seq sr) = false).
Proof.
  unfold enrich. split.
  - destruct (_extract_uniref_id (SeqIO.description sr)) as [uid|e0] eqn:E;
      simpl.
    + unfold SeqIO.seq_str.
      destruct (forallb SeqIO.is_ascii (SeqIO.seq sr)) eqn:A; simpl;
        [discriminate|].
      intros H. injection H as <-. right. repeat split.
      destruct (forallb is_space (SeqIO.description sr)) eqn:B; [|reflexivity].
      rewrite (extract_blank _ B) in E. discriminate.
    + intros H. injection H as <-. left. exact (extract_raise_inv _ E).
  - intros [[-> B]|(-> & B & A)].
    + rewrite (extract_blank _ B). reflexivity.
    + destruct (extract_total_on_words _ B) as [uid ->]. simpl.
      unfold SeqIO.seq_str. rewrite A. reflexivity.
Qed.

Lemma enrich_all_raise_kind (records : list SeqIO.SeqRecord) (e : exn) :
  enrich_all records = Raise e -> e = IndexError \/ e = UnicodeDecodeError.
Proof.
  induction records as [|sr rs IH]; simpl; [discriminate|].
  destruct (enrich sr) as [row|e0] eqn:E; simpl.
  - destruct (enrich_all rs) as [rest|e1]; simpl; [discriminate|].
    intros H. injection H as <-. apply IH. reflexivity.
  - intros H. injection H as <-.
    apply enrich_raise_iff in E. destruct E as [[-> _]|(-> & _)]; tauto.
Qed.

(** ** Examples *)

Example extract_uniref_example :
  _extract_uniref_id (txt "UniRef100_UPI0002747C2C some description")
  = Ok (txt "UPI0002747C2C").
Proof. reflexivity. Qed.

Example extract_not_anchored_example :
  _extract_uniref_id (txt "tr|X1 UniRef90_Q9XYZ1.extra UniRef50_AAA")
  = Ok (txt "Q9XYZ1").
Proof. reflexivity. Qed.

Example extract_fallback_example :
  _extract_uniref_id (txt ">sp|P12345|RHO_HUMAN desc")
  = Ok (txt "sp|P12345|RHO_HUMAN").
Proof. reflexivity. Qed.

Example float_tenth : fl (1 # 10) = 3602879701896397 # 36028797018963968.
Proof. reflexivity. Qed.

Example float_third : fl (1 # 3) = 6004799503160661 # 18014398509481984.
Proof. reflexivity. Qed.

Example float_odd_above_2_53 : fl 9007199254740993 = 9007199254740992.
Proof. reflexivity. Qed.

Example round2_ties_to_even :
  round2 (125 # 1000) = fl (12 # 100) /\ round2 (375 # 1000) = fl (38 # 100).
Proof. split; reflexivity. Qed.

Example scenario_parses :
  parse seq_float_sum scenario = Ok scenario_frame
  /\ map (fun r => (uniref_id r, sequence r, length r, gap_count r))
         (rows scenario_frame)
     = [(txt "UPI0000000AAA", txt "MK-KVGT", 7%nat, 1%nat);
        (txt "UPI0000000BBB", txt "--AA", 4%nat, 2%nat)]
  /\ map gap_percentage (rows scenario_frame) = [fl (1429 # 100); fl 50].
Proof. repeat split; vm_compute; reflexivity. Qed.

Example scenario_statistics :
  exists st,
    get_statistics seq_float_sum scenario_frame = Ok st
    /\ total_sequences st = 2%nat
    /\ min_length st = Int 4 /\ max_length st = Int 7
    /\ avg_length st = Float (11 # 2)
    /\ sequences_with_gaps st = 2%nat.
Proof. eexists. repeat split. Qed.

Example empty_body_record :
  exists df r rest,
    parse seq_float_sum (txt ">a" ++ nl ++ txt ">b" ++ nl ++ txt "MK" ++ nl)
    = Ok df
    /\ rows df = r :: rest
    /\ length r = 0%nat /\ gap_count r = 0%nat /\ gap_percentage r = 0.
Proof.
  eexists. eexists. eexists. split; [vm_compute; reflexivity|].
  repeat split.
Qed.

(** * The claims *)

(** ** C1 *)

(** C1, as stated, fails: the rows of a parsed frame that carry an
    identifier nobody has form an empty collection, and [get_statistics]
    returns a record for it (count 0, NaN means and extremes) instead of
    raising. *)
Lemma C1_empty_selection_returns_statistics :
  exists df,
    parse seq_float_sum scenario = Ok df
    /\ rows (select df (fun r => str_eqb (uniref_id r) (txt "nobody"))) = []
    /\ get_statistics seq_float_sum
         (select df (fun r => str_eqb (uniref_id r) (txt "nobody")))
       = Ok degenerate_statistics
    /\ ~ (exists e,
            get_statistics seq_float_sum
              (select df (fun r => str_eqb (uniref_id r) (txt "nobody")))
            = Raise e).
Proof.
  eexists. split; [vm_compute; reflexivity|].
  split; [reflexivity|]. split; [reflexivity|].
  intros [e H]. discriminate H.
Qed.

(** C1, amended: on an empty collection that has the columns [length],
    [gap_percentage] and [gap_count], [get_statistics] raises nothing and
    returns the record with [total_sequences = 0], NaN for [avg_length],
    [min_length], [max_length] and [avg_gap_percentage], and
    [sequences_with_gaps = 0]. *)
Theorem C1_statistics_of_empty_collection
        (float_sum : list Q -> Q) (df : DataFrame) :
  rows df = [] ->
  has_column df c_length = true ->
  has_column df c_gap_percentage = true ->
  has_column df c_gap_count = true ->
  get_statistics float_sum df = Ok degenerate_statistics.
Proof.
  intros R H1 H2 H3. unfold get_statistics, getitem, len.
  rewrite H1, H2, H3, R. reflexivity.
Qed.

Lemma C1_statistics_of_empty_collection_witness :
  get_statistics seq_float_sum {| columns := all_columns; rows := [] |}
  = Ok degenerate_statistics.
Proof.
  apply (@C1_statistics_of_empty_collection seq_float_sum
           {| columns := all_columns; rows := [] |}); reflexivity.
Defined.

(** ** C2 *)

(** C2: a source in which a line with non-blank content comes before the
    first marker line is refused: whenever some line holds a character
    that is not whitespace and neither that line nor any line before it
    starts with [>], [parse] raises [ValueError], the parse error of the
    reader, and returns no record. *)
Theorem C2_content_before_first_marker
        (float_sum : list Q -> Q) (text : str) (ls1 ls2 : list str) (l : str) :
  SeqIO.readlines text = ls1 ++ l :: ls2 ->
  forallb (fun x => negb (SeqIO.is_marker x)) (ls1 ++ [l]) = true ->
  forallb is_space l = false ->
  parse float_sum text = Raise ValueError.
Proof.
  intros R M _. unfold parse, SeqIO.parse, SeqIO.parse_lines. rewrite R.
  destruct ls1 as [|l1 ls1]; simpl in M |- *;
    apply andb_true_iff in M; destruct M as [M _];
    apply negb_true_iff in M; rewrite M; reflexivity.
Qed.

Lemma C2_content_before_first_marker_witness :
  parse seq_float_sum (txt "junk" ++ nl ++ scenario) = Raise ValueError.
Proof.
  apply (@C2_content_before_first_marker seq_float_sum
           (txt "junk" ++ nl ++ scenario)
           [] (SeqIO.readlines scenario) (txt "junk" ++ nl));
    reflexivity.
Defined.

(** ** C3 *)

(** C3: the code does not keep it.  On every header without a
    non-whitespace character (the empty header among them) the extraction
    raises [IndexError], and [parse] with it on a source whose marker line
    holds only the marker; on the header [">"] the extraction returns the
    empty string, which [parse] stores as the secondary identifier. *)
Theorem C3_extraction_fails_or_returns_empty :
  (forall header, forallb is_space header = true ->
                  _extract_uniref_id header = Raise IndexError)
  /\ _extract_uniref_id [] = Raise IndexError
  /\ _extract_uniref_id (txt ">") = Ok []
  /\ parse seq_float_sum (txt ">" ++ nl ++ txt "MKV" ++ nl) = Raise IndexError
  /\ (exists df r,
        parse seq_float_sum (txt ">>" ++ nl ++ txt "MKV" ++ nl) = Ok df
        /\ rows df = [r] /\ uniref_id r = []).
Proof.
  split; [exact extract_blank|].
  repeat split; try reflexivity.
  eexists. eexists. split; [vm_compute; reflexivity|]. split; reflexivity.
Qed.

(** ** C4 *)

(** C4: for every header, either the header holds the pattern somewhere
    ([UniRef], one or more digits, an underscore, a maximal run of capitals
    and digits) and the extraction returns the run of the leftmost
    occurrence, or it holds the pattern nowhere and the extraction is the
    first-token fallback. *)
Theorem C4_pattern_before_fallback (header : str) :
  (exists pre run,
      uniref_match header pre run
      /\ (forall pre' run', uniref_match header pre' run' ->
                            (List.length pre <= List.length pre')%nat)
      /\ _extract_uniref_id header = Ok run)
  \/ ((forall pre run, ~ uniref_match header pre run)
      /\ _extract_uniref_id header = first_token_fallback header).
Proof.
  unfold _extract_uniref_id.
  destruct (Re.search uniref_pattern header) as [g|] eqn:S.
  - left. destruct (search_some _ _ S) as (pre & suf & E & M & Hl).
    exists pre, g. split; [|split; [|reflexivity]].
    + apply uniref_match_suffix. exists suf. split; assumption.
    + intros pre' run' M'. apply uniref_match_suffix in M'.
      destruct M' as (suf' & E' & M').
      destruct (Nat.le_gt_cases (List.length pre) (List.length pre')) as [L|L];
        [exact L|].
      rewrite (Hl pre' suf' E' L) in M'. discriminate.
  - right. split; [|reflexivity].
    intros pre run M. apply uniref_match_suffix in M.
    destruct M as (suf & E & M).
    rewrite (proj1 (search_none _ _) S pre suf E) in M. discriminate.
Qed.

(** ** C5 *)

(** C5: the code does not keep it.  With no pattern in the header, the
    extraction returns the first word with every [>] removed, wherever it
    stands in the word, and raises [IndexError] when the header has no
    word. *)
Theorem C5_fallback_drops_every_marker (header : str) :
  (forall pre run, ~ uniref_match header pre run) ->
  _extract_uniref_id header
  = if forallb is_space header then Raise IndexError
    else Ok (filter (fun c => negb (chr_eqb c gt_char)) (first_token header)).
Proof.
  intros H. rewrite (extract_without_match H).
  destruct (forallb is_space header) eqn:B.
  - apply fallback_blank. exact B.
  - apply fallback_token. exact B.
Qed.

Lemma C5_fallback_drops_every_marker_witness :
  _extract_uniref_id (txt "a>b c") = Ok (txt "ab").
Proof.
  apply (@C5_fallback_drops_every_marker (txt "a>b c")).
  apply no_match_of_search. reflexivity.
Defined.

(** ** C6 *)

(** C6, as stated, fails: the lookup hands back the sequence string of the
    first matching record, not the record. *)
Lemma C6_lookup_returns_a_string :
  find_by_secondary_id scenario_frame (txt "UPI0000000AAA") = Some scenario_row
  /\ get_sequence_by_id scenario_frame (txt "UPI0000000AAA")
     = Ok (PyStr (txt "MK-KVGT"))
  /\ get_sequence_by_id scenario_frame (txt "UPI0000000AAA")
     <> Ok (PyRow scenario_row).
Proof.
  split; [reflexivity|]. split; [reflexivity|]. discriminate.
Qed.

(** C6, amended: on a collection with the columns [uniref_id] and
    [sequence], the lookup returns the [sequence] string of the first
    record, in file order, whose secondary identifier equals the given one,
    and raises [ValueError] when no record matches. *)
Theorem C6_lookup_first_match_sequence (df : DataFrame) (uid : str) :
  has_column df c_uniref_id = true ->
  has_column df c_sequence = true ->
  get_sequence_by_id df uid
  = match find_by_secondary_id df uid with
    | Some r => Ok (PyStr (sequence r))
    | None => Raise ValueError
    end.
Proof.
  intros H1 H2. unfold get_sequence_by_id, getitem, find_by_secondary_id.
  rewrite H1. simpl. unfold len, has_column. simpl.
  pose proof (filter_head_find (fun r => str_eqb (uniref_id r) uid) (rows df))
    as F.
  destruct (filter (fun r => str_eqb (uniref_id r) uid) (rows df)) as [|r rs].
  - rewrite F. reflexivity.
  - rewrite F. simpl. unfold has_column in H2. rewrite H2. reflexivity.
Qed.

Lemma C6_lookup_first_match_sequence_witness :
  get_sequence_by_id scenario_frame (txt "UPI0000000BBB")
  = Ok (PyStr (txt "--AA"))
  /\ get_sequence_by_id scenario_frame (txt "nobody") = Raise ValueError.
Proof.
  split.
  - apply (@C6_lookup_first_match_sequence scenario_frame (txt "UPI0000000BBB"));
      reflexivity.
  - apply (@C6_lookup_first_match_sequence scenario_frame (txt "nobody"));
      reflexivity.
Defined.

(** ** C7 *)

(** C7, as stated, fails: for a sequence of 160 characters with 23 gaps the
    stored percentage is 14.37, while [round(100 * 23 / 160, 2)] is 14.38,
    whether the quotient is taken in floats or exactly. *)
Lemma C7_percentage_differs_from_formula :
  exists df r,
    parse seq_float_sum (gapped 23 137) = Ok df
    /\ rows df = [r]
    /\ length r = 160%nat /\ gap_count r = 23%nat
    /\ gap_percentage r == fl (1437 # 100)
    /\ spec_gap_percentage (gap_count r) (length r) == fl (1438 # 100)
    /\ exact_gap_percentage (gap_count r) (length r) == fl (1438 # 100)
    /\ ~ gap_percentage r == spec_gap_percentage (gap_count r) (length r)
    /\ ~ gap_percentage r == exact_gap_percentage (gap_count r) (length r).
Proof.
  eexists. eexists. split; [vm_compute; reflexivity|].
  split; [reflexivity|]. split; [reflexivity|]. split; [reflexivity|].
  repeat split; vm_compute; congruence.
Qed.

(** C7, amended: for every parsed record, when [length > 0] the stored
    percentage is [round((gap_count / length) * 100, 2)] as floats compute
    it (the quotient is rounded before it is multiplied by 100), and it is
    0 when [length = 0]; it lies between 0 and 100, and it is 0 whenever
    [gap_count = 0]. *)
Theorem C7_gap_percentage_of_parsed_record
        (float_sum : list Q -> Q) (text : str) (df : DataFrame) (r : Row) :
  parse float_sum text = Ok df ->
  In r (rows df) ->
  ((0 < length r)%nat ->
   gap_percentage r
   = round2 (float_mul (int_truediv (Z.of_nat (gap_count r))
                                    (Z.of_nat (length r))) 100))
  /\ (length r = 0%nat -> gap_percentage r = 0)
  /\ 0 <= gap_percentage r <= 100
  /\ (gap_count r = 0%nat -> gap_percentage r = 0).
Proof.
  intros P Hin. destruct (@parsed_row _ _ _ _ P Hin) as (records & sr & _ & _ & E).
  destruct (@enrich_fields _ _ E) as (_ & Hl & Hg & Hp & _).
  assert (G : (gap_count r <= length r)%nat).
  { rewrite Hg, Hl. apply count_le_length. }
  rewrite Hp. clear Hp.
  destruct (0 <? length r)%nat eqn:Z0.
  - apply Nat.ltb_lt in Z0. repeat split.
    + intros H. lia.
    + apply round2_bounds. apply percentage_bounds; assumption.
    + apply round2_bounds. apply percentage_bounds; assumption.
    + intros H. rewrite H. apply percentage_zero.
  - apply Nat.ltb_ge in Z0. repeat split; try reflexivity; try discriminate.
    intros H. lia.
Qed.

Lemma C7_gap_percentage_of_parsed_record_witness :
  gap_percentage scenario_row = fl (1429 # 100)
  /\ 0 <= gap_percentage scenario_row <= 100.
Proof.
  destruct (@C7_gap_percentage_of_parsed_record
              seq_float_sum scenario scenario_frame scenario_row)
    as (H1 & _ & H3 & _).
  - vm_compute. reflexivity.
  - left. reflexivity.
  - split; [reflexivity | exact H3].
Defined.

(** ** C8 *)

(** C8: for every sequence, [remove_gaps] leaves no gap character,
    shortens the sequence by the number of its gap characters, and keeps
    the other characters in their order; for every parsed record, the
    length of its stripped sequence is [length - gap_count]. *)
Theorem C8_remove_gaps :
  (forall sequence0 : str,
      ~ In gap_char (remove_gaps sequence0)
      /\ List.length (remove_gaps sequence0)
         = (List.length sequence0 - count gap_char sequence0)%nat
      /\ remove_gaps sequence0
         = filter (fun c => negb (chr_eqb c gap_char)) sequence0)
  /\ (forall (float_sum : list Q -> Q) (text : str) (df : DataFrame) (r : Row),
        parse float_sum text = Ok df ->
        In r (rows df) ->
        List.length (remove_gaps (sequence r))
        = (length r - gap_count r)%nat).
Proof.
  assert (A : forall t : str,
             List.length (remove_gaps t)
             = (List.length t - count gap_char t)%nat).
  { intros t. unfold remove_gaps. rewrite replace_nil_filter.
    pose proof (count_filter_length gap_char t). lia. }
  split.
  - intros sequence0. split; [|split; [apply A|]].
    + unfold remove_gaps. rewrite replace_nil_filter.
      intros H. apply filter_In in H. destruct H as [_ H].
      rewrite chr_eqb_refl in H. discriminate.
    + unfold remove_gaps. apply replace_nil_filter.
  - intros float_sum text df r P Hin.
    destruct (@parsed_row _ _ _ _ P Hin) as (records & sr & _ & _ & E).
    destruct (@enrich_fields _ _ E) as (_ & Hl & Hg & _).
    rewrite A, Hl, Hg. reflexivity.
Qed.

(** ** C9 *)

(** When [parse] returns, the rows of the frame are, in order, the marker
    lines of the source: one row for each, with the title of the line as
    its header. *)
Lemma parse_rows_follow_markers
      (float_sum : list Q -> Q) (text : str) (df : DataFrame) :
  parse float_sum text = Ok df ->
  map full_header (rows df)
  = map SeqIO.title_of (filter SeqIO.is_marker (SeqIO.readlines text))
  /\ List.length (rows df)
     = List.length (filter SeqIO.is_marker (SeqIO.readlines text)).
Proof.
  intros P. pose proof (parse_ok_titles _ _ P) as M.
  split; [exact M|].
  rewrite <- (length_map full_header (rows df)), M. apply length_map.
Qed.

(** C9: the code does not keep it on the empty source, the one source
    without marker lines that the reader accepts: [parse] raises
    [KeyError] instead of returning an empty collection, because the frame
    built from no record has no column and the report that [parse] prints
    reads the column [length].  No other source makes it raise
    [KeyError]. *)
Theorem C9_empty_source_raises (float_sum : list Q -> Q) :
  parse float_sum [] = Raise KeyError
  /\ (forall text, parse float_sum text = Raise KeyError -> text = []).
Proof.
  split; [reflexivity|]. intros text. unfold parse.
  destruct (SeqIO.parse text) as [records|e] eqn:R; simpl.
  - destruct (enrich_all records) as [data|e] eqn:E; simpl.
    + destruct data as [|r data].
      * intros _. apply enrich_all_nil in E. subst records.
        destruct (reader_ok_marker _ R) as [[H _]|[_ N]];
          [exact H | congruence].
      * rewrite !getitem_make_frame by discriminate. discriminate.
    + intros H. injection H as ->.
      destruct (enrich_all_raise_kind _ E); discriminate.
  - intros H. injection H as ->. apply reader_raise_iff in R.
    destruct R as [R _]. discriminate.
Qed.

(** ** C10 *)

(** C10: for a collection with at least one record, whose lengths add up
    to less than 2^53, the statistics are returned and satisfy
    [min_length <= avg_length <= max_length] and
    [0 <= sequences_with_gaps <= total_sequences]; [total_sequences] is the
    number of records and [sequences_with_gaps] the number of records with
    [gap_count > 0]. *)
Theorem C10_statistics_invariants
        (float_sum : list Q -> Q) (df : DataFrame) :
  rows df <> [] ->
  has_column df c_length = true ->
  has_column df c_gap_percentage = true ->
  has_column df c_gap_count = true ->
  (sumZ (map length (rows df)) < 2 ^ 53)%Z ->
  exists st,
    get_statistics float_sum df = Ok st
    /\ number_le (min_length st) (avg_length st)
    /\ number_le (avg_length st) (max_length st)
    /\ (0 <= sequences_with_gaps st <= total_sequences st)%nat
    /\ total_sequences st = List.length (rows df)
    /\ sequences_with_gaps st
       = List.length (filter (fun r => (0 <? gap_count r)%nat) (rows df)).
Proof.
  intros N H1 H2 H3 B. unfold get_statistics, getitem, len.
  rewrite H1, H2, H3. simpl. eexists. split; [reflexivity|]. simpl.
  destruct (rows df) as [|r rs]; [congruence|]. simpl map in *.
  destruct (mean_between (length r) (map length rs) B) as [L U].
  repeat split.
  - exact L.
  - exact U.
  - lia.
  - rewrite <- (length_map gap_count (r :: rs)). apply filter_length_le.
  - apply (filter_map_length gap_count (fun n => (0 <? n)%nat) (r :: rs)).
Qed.

Lemma C10_statistics_invariants_witness :
  exists st,
    get_statistics seq_float_sum scenario_frame = Ok st
    /\ number_le (min_length st) (avg_length st)
    /\ number_le (avg_length st) (max_length st)
    /\ (0 <= sequences_with_gaps st <= total_sequences st)%nat
    /\ total_sequences st = 2%nat
    /\ sequences_with_gaps st = 2%nat.
Proof.
  apply (@C10_statistics_invariants seq_float_sum scenario_frame).
  - discriminate.
  - reflexivity.
  - reflexivity.
  - reflexivity.
  - reflexivity.
Defined.

(** * Further properties of the parser *)

(** ** Identifier extraction *)

Lemma capital_or_digit_is_plain (c : ascii) :
  is_upper_or_digit c = true ->
  is_space c = false /\ chr_eqb c gt_char = false.
Proof.
  destruct c as [b0 b1 b2 b3 b4 b5 b6 b7].
  destruct b0, b1, b2, b3, b4, b5, b6, b7; intros H;
    try discriminate H; split; reflexivity.
Qed.

Lemma search_match_run (header g : str) :
  Re.search uniref_pattern header = Some g ->
  g <> [] /\ forallb is_upper_or_digit g = true.
Proof.
  intros S. destruct (search_some _ _ S) as (pre & suf & E & M & _).
  assert (U : uniref_match header pre g).
  { apply uniref_match_suffix. exists suf. split; assumption. }
  destruct U as (digits & rest & _ & _ & _ & Hn & Ha & _).
  split; assumption.
Qed.

Lemma filter_negb_nil_iff (A : Type) (p : A -> bool) (l : list A) :
  filter (fun x => negb (p x)) l = [] <-> forallb p l = true.
Proof.
  induction l as [|a l IH]; simpl; [tauto|].
  destruct (p a); simpl; [exact IH | split; discriminate].
Qed.

Lemma first_token_plain (t : str) :
  forallb (fun c => negb (is_space c)) (first_token t) = true.
Proof. unfold first_token. apply take_while_all. Qed.

(** X1: the extraction raises nothing but [IndexError], and raises it
    exactly on the headers that have no non-whitespace character. *)
Theorem X1_extraction_raises_iff_blank (header : str) (e : exn) :
  _extract_uniref_id header = Raise e
  <-> e = IndexError /\ forallb is_space header = true.
Proof.
  split.
  - unfold _extract_uniref_id.
    destruct (Re.search uniref_pattern header); [discriminate|].
    destruct (forallb is_space header) eqn:B.
    + rewrite (fallback_blank _ B). intros H. injection H as <-.
      split; reflexivity.
    + rewrite (fallback_token _ B). discriminate.
  - intros [-> B]. apply extract_blank. exact B.
Qed.

(** X2: an identifier that the extraction returns holds no whitespace
    character and no [>]. *)
Theorem X2_identifier_is_plain (header uid : str) :
  _extract_uniref_id header = Ok uid ->
  forallb (fun c => negb (is_space c) && negb (chr_eqb c gt_char)) uid = true.
Proof.
  unfold _extract_uniref_id.
  destruct (Re.search uniref_pattern header) as [g|] eqn:S.
  - intros H. injection H as <-.
    destruct (search_match_run _ S) as [_ A].
    apply forallb_forall. intros c Hc.
    rewrite forallb_forall in A.
    destruct (capital_or_digit_is_plain _ (A c Hc)) as [-> ->]. reflexivity.
  - destruct (forallb is_space header) eqn:B.
    + rewrite (fallback_blank _ B). discriminate.
    + rewrite (fallback_token _ B). intros H. injection H as <-.
      apply forallb_forall. intros c Hc. apply filter_In in Hc.
      destruct Hc as [Hc Hg].
      pose proof (first_token_plain header) as P.
      rewrite forallb_forall in P. rewrite (P c Hc), Hg. reflexivity.
Qed.

Lemma X2_identifier_is_plain_witness :
  forallb (fun c => negb (is_space c) && negb (chr_eqb c gt_char))
          (txt "sp|P12345|RHO_HUMAN") = true.
Proof.
  apply (@X2_identifier_is_plain (txt ">sp|P12345|RHO_HUMAN desc")).
  reflexivity.
Defined.

Lemma search_none_iff_no_match (header : str) :
  Re.search uniref_pattern header = None
  <-> forall pre run, ~ uniref_match header pre run.
Proof.
  split; [apply no_match_of_search|].
  intros H. destruct (Re.search uniref_pattern header) as [g|] eqn:S;
    [|reflexivity].
  exfalso. destruct (search_some _ _ S) as (pre & suf & E & M & _).
  apply (H pre g). apply uniref_match_suffix. exists suf. split; assumption.
Qed.

(** X3: the extraction returns the empty string exactly when the header
    holds the pattern nowhere and its first word is made of [>] only. *)
Theorem X3_empty_identifier_iff (header : str) :
  _extract_uniref_id header = Ok []
  <-> (forall pre run, ~ uniref_match header pre run)
      /\ forallb is_space header = false
      /\ forallb (fun c => chr_eqb c gt_char) (first_token header) = true.
Proof.
  rewrite <- search_none_iff_no_match. unfold _extract_uniref_id.
  destruct (Re.search uniref_pattern header) as [g|] eqn:S.
  - split.
    + intros H. injection H as ->.
      destruct (search_match_run _ S) as [N _]. congruence.
    + intros [H _]. discriminate.
  - destruct (forallb is_space header) eqn:B.
    + rewrite (fallback_blank _ B). split; [discriminate|].
      intros (_ & H & _). discriminate.
    + rewrite (fallback_token _ B). split.
      * intros H. injection H as H. apply filter_negb_nil_iff in H.
        repeat split. exact H.
      * intros (_ & _ & H). f_equal. apply filter_negb_nil_iff. exact H.
Qed.

(** X4: an identifier written the UniRef way is read back: from a header
    that starts with [UniRef], some digits, an underscore and a non-empty
    identifier of capitals and digits, followed by anything that does not
    go on with a capital or a digit, the extraction returns the
    identifier. *)
Theorem X4_uniref_round_trip (digits uid rest : str) :
  digits <> [] -> forallb is_digit digits = true ->
  uid <> [] -> forallb is_upper_or_digit uid = true ->
  match rest with [] => True | c :: _ => is_upper_or_digit c = false end ->
  _extract_uniref_id (txt "UniRef" ++ digits ++ "_"%char :: uid ++ rest)
  = Ok uid.
Proof.
  intros Hd Hdig Hu Hup Hrest.
  assert (M : uniref_at_head (txt "UniRef" ++ digits ++ "_"%char :: uid ++ rest)
              = Some uid).
  { apply uniref_at_head_iff. exists digits, rest. repeat split; assumption. }
  rewrite <- match_uniref_at_head in M.
  unfold _extract_uniref_id.
  change (txt "UniRef") with ["U"; "n"; "i"; "R"; "e"; "f"]%char in *.
  cbn [app] in *. cbn [Re.search]. rewrite M. reflexivity.
Qed.

Lemma X4_uniref_round_trip_witness :
  _extract_uniref_id
    (txt "UniRef" ++ txt "90" ++ "_"%char :: txt "Q9XYZ1" ++ txt " some protein")
  = Ok (txt "Q9XYZ1").
Proof.
  apply (@X4_uniref_round_trip (txt "90") (txt "Q9XYZ1") (txt " some protein"));
    try discriminate; reflexivity.
Defined.

(** ** The outcome of [parse] *)

Lemma blank_records_iff (text : str) (records : list SeqIO.SeqRecord) :
  SeqIO.parse text = Ok records ->
  Exists (fun sr => forallb is_space (SeqIO.description sr) = true) records
  <-> Exists (fun l => forallb is_space (SeqIO.title_of l) = true)
             (filter SeqIO.is_marker (SeqIO.readlines text)).
Proof.
  intros R.
  rewrite <- (Exists_map SeqIO.description
                (fun d => forallb is_space d = true) records).
  rewrite <- (Exists_map SeqIO.title_of (fun d => forallb is_space d = true)).
  rewrite (records_titles _ R). reflexivity.
Qed.

Lemma worded_records_iff (text : str) (records : list SeqIO.SeqRecord) :
  SeqIO.parse text = Ok records ->
  Forall (fun sr => forallb is_space (SeqIO.description sr) = false) records
  <-> Forall (fun l => forallb is_space (SeqIO.title_of l) = false)
             (filter SeqIO.is_marker (SeqIO.readlines text)).
Proof.
  intros R.
  rewrite <- (Forall_map SeqIO.description
                (fun d => forallb is_space d = false) records).
  rewrite <- (Forall_map SeqIO.title_of (fun d => forallb is_space d = false)).
  rewrite (records_titles _ R). reflexivity.
Qed.

Lemma enrich_all_ok_inv (records : list SeqIO.SeqRecord) (data : list Row) :
  enrich_all records = Ok data ->
  Forall (fun sr => forallb is_space (SeqIO.description sr) = false) records
  /\ forallb (fun sr => forallb SeqIO.is_ascii (SeqIO.seq sr)) records = true.
Proof.
  intros E. apply enrich_all_rows in E.
  induction E as [|sr row rs data' Er _ [IH1 IH2]]; [split; [constructor | reflexivity]|].
  destruct (enrich_ok_inv _ Er) as (uid & X & A & _).
  split.
  - constructor; [|exact IH1].
    destruct (forallb is_space (SeqIO.description sr)) eqn:B; [|reflexivity].
    rewrite (extract_blank _ B) in X. discriminate.
  - simpl. rewrite A, IH2. reflexivity.
Qed.

Lemma enrich_all_index (records : list SeqIO.SeqRecord) :
  enrich_all records = Raise IndexError ->
  Exists (fun sr => forallb is_space (SeqIO.description sr) = true) records.
Proof.
  induction records as [|sr rs IH]; simpl; [discriminate|].
  destruct (enrich sr) as [row|e0] eqn:E; simpl.
  - destruct (enrich_all rs) as [rest|e1]; simpl; [discriminate|].
    intros H. injection H as ->. right. apply IH. reflexivity.
  - intros H. injection H as ->. left.
    apply enrich_raise_iff in E. destruct E as [[_ B]|(E & _)];
      [exact B | discriminate].
Qed.

Lemma enrich_all_unicode (records : list SeqIO.SeqRecord) :
  enrich_all records = Raise UnicodeDecodeError ->
  forallb (fun sr => forallb SeqIO.is_ascii (SeqIO.seq sr)) records = false.
Proof.
  induction records as [|sr rs IH]; simpl; [discriminate|].
  destruct (enrich sr) as [row|e0] eqn:E; simpl.
  - destruct (enrich_all rs) as [rest|e1]; simpl; [discriminate|].
    intros H. injection H as ->. rewrite (IH eq_refl). apply andb_false_r.
  - intros H. injection H as ->.
    apply enrich_raise_iff in E. destruct E as [[E _]|(_ & _ & A)];
      [discriminate|].
    rewrite A. reflexivity.
Qed.

(** The five ways a call of [parse] can end. *)
Lemma parse_cases (float_sum : list Q -> Q) (text : str) :
  (text = [] /\ parse float_sum text = Raise KeyError)
  \/ (text <> [] /\ SeqIO.is_marker text = false
      /\ parse float_sum text = Raise ValueError)
  \/ (SeqIO.is_marker text = true
      /\ Forall (fun l => forallb is_space (SeqIO.title_of l) = false)
                (filter SeqIO.is_marker (SeqIO.readlines text))
      /\ forallb (forallb SeqIO.is_ascii)
                 (filter (fun l => negb (SeqIO.is_marker l))
                         (SeqIO.readlines text)) = true
      /\ exists df, parse float_sum text = Ok df)
  \/ (SeqIO.is_marker text = true
      /\ Exists (fun l => forallb is_space (SeqIO.title_of l) = true)
                (filter SeqIO.is_marker (SeqIO.readlines text))
      /\ parse float_sum text = Raise IndexError)
  \/ (SeqIO.is_marker text = true
      /\ forallb (forallb SeqIO.is_ascii)
                 (filter (fun l => negb (SeqIO.is_marker l))
                         (SeqIO.readlines text)) = false
      /\ parse float_sum text = Raise UnicodeDecodeError).
Proof.
  unfold parse.
  destruct (SeqIO.parse text) as [records|e] eqn:R; simpl.
  - destruct (reader_ok_marker _ R) as [[-> ->]|[M N]].
    + left. split; reflexivity.
    + right. right.
      destruct (enrich_all records) as [data|e] eqn:E; simpl.
      * left. destruct (enrich_all_ok_inv _ E) as [F A].
        split; [exact M|]. split; [apply (worded_records_iff _ R); exact F|].
        split; [rewrite <- (records_ascii _ R); exact A|].
        destruct data as [|r data];
          [apply enrich_all_nil in E; congruence|].
        rewrite !getitem_make_frame by discriminate. simpl.
        eexists. reflexivity.
      * right. destruct (enrich_all_raise_kind _ E) as [->| ->].
        -- left. split; [exact M|]. split; [|reflexivity].
           apply (blank_records_iff _ R). apply enrich_all_index. exact E.
        -- right. split; [exact M|]. split; [|reflexivity].
           rewrite <- (records_ascii _ R). apply enrich_all_unicode. exact E.
  - apply reader_raise_iff in R. destruct R as (-> & T & M).
    right. left. repeat split; assumption.
Qed.

Lemma not_both_worded_and_blank (ls : list str) :
  Forall (fun l => forallb is_space (SeqIO.title_of l) = false) ls ->
  ~ Exists (fun l => forallb is_space (SeqIO.title_of l) = true) ls.
Proof.
  intros F X. apply Exists_exists in X. destruct X as (l & Hin & B).
  rewrite Forall_forall in F. rewrite (F l Hin) in B. discriminate.
Qed.

Lemma marker_text_not_empty (text : str) :
  SeqIO.is_marker text = true -> text <> [].
Proof. intros M ->. discriminate. Qed.

(** X5: [parse] raises [ValueError] exactly when the source is not empty
    and does not start with [>], and [KeyError] exactly when the source is
    empty.  It raises [IndexError] or [UnicodeDecodeError] exactly when the
    source starts with [>] and either some marker line has nothing but
    whitespace after the marker or some other line holds a character
    outside ASCII: [IndexError] only with such a marker line,
    [UnicodeDecodeError] only with such a character. *)
Theorem X5_parse_errors (float_sum : list Q -> Q) (text : str) :
  (parse float_sum text = Raise ValueError
   <-> text <> [] /\ SeqIO.is_marker text = false)
  /\ (parse float_sum text = Raise KeyError <-> text = [])
  /\ (parse float_sum text = Raise IndexError
       \/ parse float_sum text = Raise UnicodeDecodeError
      <-> SeqIO.is_marker text = true
          /\ (Exists (fun l => forallb is_space (SeqIO.title_of l) = true)
                     (filter SeqIO.is_marker (SeqIO.readlines text))
              \/ forallb (forallb SeqIO.is_ascii)
                         (filter (fun l => negb (SeqIO.is_marker l))
                                 (SeqIO.readlines text)) = false))
  /\ (parse float_sum text = Raise IndexError ->
      Exists (fun l => forallb is_space (SeqIO.title_of l) = true)
             (filter SeqIO.is_marker (SeqIO.readlines text)))
  /\ (parse float_sum text = Raise UnicodeDecodeError ->
      forallb (forallb SeqIO.is_ascii)
              (filter (fun l => negb (SeqIO.is_marker l))
                      (SeqIO.readlines text)) = false).
Proof.
  destruct (parse_cases float_sum text)
    as [[T P]|[(T & M & P)|[(M & F & A & df & P)|[(M & X & P)|(M & A & P)]]]];
    rewrite P; clear P;
    try pose proof (@marker_text_not_empty _ M) as T;
    try pose proof (@not_both_worded_and_blank _ F) as NX;
    (split; [|split; [|split; [|split]]]);
    try (split; intros H); try intros H;
    repeat match goal with
           | K : _ \/ _ |- _ => destruct K
           | K : _ /\ _ |- _ => destruct K
           end;
    try discriminate; try congruence; try tauto;
    try (left; reflexivity); try (right; reflexivity);
    try (subst text; discriminate).
Qed.

(** X6: [parse] returns a frame exactly when the source starts with [>],
    every marker line has a word after the marker, and every other line is
    ASCII. *)
Theorem X6_parse_returns_iff (float_sum : list Q -> Q) (text : str) :
  (exists df, parse float_sum text = Ok df)
  <-> SeqIO.is_marker text = true
      /\ Forall (fun l => forallb is_space (SeqIO.title_of l) = false)
                (filter SeqIO.is_marker (SeqIO.readlines text))
      /\ forallb (forallb SeqIO.is_ascii)
                 (filter (fun l => negb (SeqIO.is_marker l))
                         (SeqIO.readlines text)) = true.
Proof.
  split.
  - intros [df P].
    destruct (parse_ok_inv _ _ P) as (records & data & R & E & N & _).
    destruct (enrich_all_ok_inv _ E) as [F A].
    split; [|split].
    + destruct (reader_ok_marker _ R) as [[_ ->]|[M _]]; [|exact M].
      simpl in E. injection E as <-. congruence.
    + apply (worded_records_iff _ R). exact F.
    + rewrite <- (records_ascii _ R). exact A.
  - intros (M & F & A). apply parse_total; assumption.
Qed.

(** X7: a frame that [parse] returns has all seven columns and at least
    one row; its rows are the marker lines of the source, one for each and
    in the order of the lines, and the header of a row is its marker line
    without the marker and without trailing whitespace. *)
Theorem X7_parsed_frame_shape
        (float_sum : list Q -> Q) (text : str) (df : DataFrame) :
  parse float_sum text = Ok df ->
  columns df = all_columns
  /\ rows df <> []
  /\ map full_header (rows df)
     = map SeqIO.title_of (filter SeqIO.is_marker (SeqIO.readlines text))
  /\ List.length (rows df)
     = List.length (filter SeqIO.is_marker (SeqIO.readlines text)).
Proof.
  intros P. pose proof (parse_ok_titles _ _ P) as M.
  destruct (@parse_ok_inv _ _ _ P) as (records & data & _ & E & N & ->).
  simpl rows in M.
  repeat split.
  - destruct data; [congruence | reflexivity].
  - exact N.
  - exact M.
  - simpl. rewrite <- (length_map full_header data), M. apply length_map.
Qed.

Lemma X7_parsed_frame_shape_witness :
  columns scenario_frame = all_columns
  /\ rows scenario_frame <> []
  /\ map full_header (rows scenario_frame)
     = [txt "UniRef100_UPI0000000AAA desc one";
        txt "UniRef100_UPI0000000BBB desc two"]
  /\ List.length (rows scenario_frame) = 2%nat.
Proof.
  apply (@X7_parsed_frame_shape seq_float_sum scenario scenario_frame).
  vm_compute. reflexivity.
Defined.

(** ** The rows of a parsed frame *)

Lemma rstrip_idempotent (t : str) : rstrip (rstrip t) = rstrip t.
Proof.
  induction t as [|c t IH]; simpl; [reflexivity|].
  destruct (rstrip t) as [|x r] eqn:R.
  - destruct (is_space c) eqn:S; simpl; [reflexivity|]. rewrite S. reflexivity.
  - change (rstrip (c :: x :: r))
      with (match rstrip (x :: r) with
            | [] => if is_space c then [] else [c]
            | y :: r0 => c :: y :: r0
            end).
    rewrite IH. reflexivity.
Qed.

Lemma filter_all (A : Type) (p : A -> bool) (l : list A) :
  forallb p (filter p l) = true.
Proof.
  induction l as [|a l IH]; simpl; [reflexivity|].
  destruct (p a) eqn:E; simpl; [rewrite E|]; exact IH.
Qed.

Lemma collect_shape (title : str) (body ls : list str) :
  rstrip title = title ->
  Forall record_shape (SeqIO.collect title body ls).
Proof.
  revert title body. induction ls as [|l ls IH]; intros title body T; simpl.
  - constructor; [|constructor]. repeat split; [exact T | apply filter_all].
  - destruct (SeqIO.is_marker l).
    + constructor.
      * repeat split; [exact T | apply filter_all].
      * apply IH. apply rstrip_idempotent.
    + apply IH. exact T.
Qed.

Lemma records_shape (text : str) (records : list SeqIO.SeqRecord) :
  SeqIO.parse text = Ok records -> Forall record_shape records.
Proof.
  unfold SeqIO.parse, SeqIO.parse_lines.
  destruct (SeqIO.readlines text) as [|l ls].
  - intros H. injection H as <-. constructor.
  - destruct (SeqIO.is_marker l); [|discriminate].
    intros H. injection H as <-.
    apply collect_shape. apply rstrip_idempotent.
Qed.

Lemma parsed_row_record (float_sum : list Q -> Q) (text : str)
      (df : DataFrame) (r : Row) :
  parse float_sum text = Ok df -> In r (rows df) ->
  exists sr, record_shape sr /\ enrich sr = Ok r.
Proof.
  intros P Hin.
  destruct (@parsed_row _ _ _ _ P Hin) as (records & sr & R & Hsr & E).
  exists sr. split; [|exact E].
  pose proof (records_shape _ R) as S. rewrite Forall_forall in S.
  exact (S sr Hsr).
Qed.

Lemma enrich_id (sr : SeqIO.SeqRecord) (row : Row) :
  enrich sr = Ok row -> id row = SeqIO.id sr.
Proof.
  intros H. destruct (enrich_ok_inv _ H) as (uid & _ & _ & ->). reflexivity.
Qed.

Lemma extract_ok_not_blank (header uid : str) :
  _extract_uniref_id header = Ok uid -> forallb is_space header = false.
Proof.
  intros H. destruct (forallb is_space header) eqn:B; [|reflexivity].
  rewrite (extract_blank _ B) in H. discriminate.
Qed.

(** X8: for every row of a parsed frame, [length] is the number of
    characters of [sequence], [gap_count] the number of its [-] characters
    and never more than [length], and [sequence] holds no space, no
    carriage return and no line feed. *)
Theorem X8_parsed_row_numbers
        (float_sum : list Q -> Q) (text : str) (df : DataFrame) (r : Row) :
  parse float_sum text = Ok df ->
  In r (rows df) ->
  length r = List.length (sequence r)
  /\ gap_count r = count gap_char (sequence r)
  /\ (gap_count r <= length r)%nat
  /\ ~ In " "%char (sequence r)
  /\ ~ In (ascii_of_nat 13) (sequence r)
  /\ ~ In SeqIO.LF (sequence r).
Proof.
  intros P Hin.
  destruct (@parsed_row_record _ _ _ _ P Hin) as (sr & (_ & _ & S) & E).
  destruct (@enrich_fields _ _ E) as (Hs & Hl & Hg & _).
  rewrite <- Hs in S. rewrite forallb_forall in S.
  repeat split.
  - exact Hl.
  - exact Hg.
  - rewrite Hg, Hl. apply count_le_length.
  - intros H. apply S in H. discriminate.
  - intros H. apply S in H. discriminate.
  - intros H. apply S in H. discriminate.
Qed.

Lemma X8_parsed_row_numbers_witness :
  length scenario_row = 7%nat /\ gap_count scenario_row = 1%nat
  /\ (gap_count scenario_row <= length scenario_row)%nat
  /\ ~ In " "%char (sequence scenario_row)
  /\ ~ In (ascii_of_nat 13) (sequence scenario_row)
  /\ ~ In SeqIO.LF (sequence scenario_row).
Proof.
  apply (@X8_parsed_row_numbers seq_float_sum scenario scenario_frame
           scenario_row).
  - vm_compute. reflexivity.
  - left. reflexivity.
Defined.

(** X9: for every row of a parsed frame, the header has a word and no
    trailing whitespace, [id] is the first word of the header (so it is
    not empty and holds no whitespace), and [uniref_id] is what the
    extraction returns on the header. *)
Theorem X9_parsed_row_identifiers
        (float_sum : list Q -> Q) (text : str) (df : DataFrame) (r : Row) :
  parse float_sum text = Ok df ->
  In r (rows df) ->
  forallb is_space (full_header r) = false
  /\ rstrip (full_header r) = full_header r
  /\ id r = first_token (full_header r)
  /\ id r <> []
  /\ forallb (fun c => negb (is_space c)) (id r) = true
  /\ _extract_uniref_id (full_header r) = Ok (uniref_id r).
Proof.
  intros P Hin.
  destruct (@parsed_row_record _ _ _ _ P Hin) as (sr & (Hid & Ht & _) & E).
  destruct (@enrich_fields _ _ E) as (_ & _ & _ & _ & X).
  pose proof (@enrich_header _ _ E) as Hh. pose proof (@enrich_id _ _ E) as Hi.
  pose proof (@extract_ok_not_blank _ _ X) as B.
  assert (I : id r = first_token (full_header r)).
  { rewrite Hi, Hid, <- Hh. unfold SeqIO.first_word.
    destruct (@split_head _ B) as [rest ->]. reflexivity. }
  repeat split.
  - exact B.
  - rewrite Hh. exact Ht.
  - exact I.
  - rewrite I. apply first_token_nonempty. exact B.
  - rewrite I. apply first_token_plain.
  - exact X.
Qed.

Lemma X9_parsed_row_identifiers_witness :
  forallb is_space (full_header scenario_row) = false
  /\ rstrip (full_header scenario_row) = full_header scenario_row
  /\ id scenario_row = txt "UniRef100_UPI0000000AAA"
  /\ id scenario_row <> []
  /\ forallb (fun c => negb (is_space c)) (id scenario_row) = true
  /\ _extract_uniref_id (full_header scenario_row) = Ok (txt "UPI0000000AAA").
Proof.
  apply (@X9_parsed_row_identifiers seq_float_sum scenario scenario_frame
           scenario_row).
  - vm_compute. reflexivity.
  - left. reflexivity.
Defined.

(** ** Lookup *)

Lemma find_first_in (A : Type) (p : A -> bool) (l : list A) (a : A) :
  In a l -> p a = true -> exists b, find p l = Some b.
Proof.
  intros Hin Hp. destruct (find p l) as [b|] eqn:F; [eexists; reflexivity|].
  exfalso. pose proof (find_none p l F a Hin). congruence.
Qed.

Lemma nodup_map_same (A B : Type) (f : A -> B) (l : list A) (a b : A) :
  NoDup (map f l) -> In a l -> In b l -> f a = f b -> a = b.
Proof.
  induction l as [|x l IH]; simpl; intros N Ha Hb E; [contradiction|].
  inversion N as [|? ? Nx N']; subst.
  destruct Ha as [->|Ha], Hb as [->|Hb].
  - reflexivity.
  - exfalso. apply Nx. rewrite E. apply in_map. exact Hb.
  - exfalso. apply Nx. rewrite <- E. apply in_map. exact Ha.
  - exact (IH N' Ha Hb E).
Qed.

Lemma lookup_unfold (df : DataFrame) (uid : str) :
  get_sequence_by_id df uid
  = if has_column df c_uniref_id then
      match find (fun r => str_eqb (uniref_id r) uid) (rows df) with
      | None => Raise ValueError
      | Some r =>
          if has_column df c_sequence then Ok (PyStr (sequence r))
          else Raise KeyError
      end
    else Raise KeyError.
Proof.
  unfold get_sequence_by_id, getitem.
  destruct (has_column df c_uniref_id); [|reflexivity]. simpl.
  unfold len, has_column. simpl.
  pose proof (filter_head_find (fun r => str_eqb (uniref_id r) uid) (rows df))
    as F.
  destruct (filter (fun r => str_eqb (uniref_id r) uid) (rows df)) as [|r rs];
    rewrite F; reflexivity.
Qed.

(** X10: in a parsed frame every identifier that a row carries is found:
    the lookup of the identifier of a row raises nothing and returns the
    sequence of a row with that identifier, the row's own sequence when no
    two rows share an identifier. *)
Theorem X10_lookup_of_parsed_identifier
        (float_sum : list Q -> Q) (text : str) (df : DataFrame) (r : Row) :
  parse float_sum text = Ok df ->
  In r (rows df) ->
  exists r',
    In r' (rows df) /\ uniref_id r' = uniref_id r
    /\ get_sequence_by_id df (uniref_id r) = Ok (PyStr (sequence r'))
    /\ (NoDup (map uniref_id (rows df)) -> r' = r).
Proof.
  intros P Hin. destruct (@parse_ok_inv _ _ _ P) as (records & data & _ & _ & N & ->).
  destruct data as [|r0 data]; [congruence|]. clear N.
  set (df := make_frame (r0 :: data)) in *.
  destruct (@find_first_in _ (fun x => str_eqb (uniref_id x) (uniref_id r))
              (rows df) r Hin) as [r' F].
  { apply str_eqb_eq. reflexivity. }
  pose proof (find_some _ _ F) as [Hin' E]. apply str_eqb_eq in E.
  exists r'. repeat split.
  - exact Hin'.
  - exact E.
  - rewrite lookup_unfold. rewrite F. reflexivity.
  - intros D. exact (@nodup_map_same _ _ uniref_id _ _ _ D Hin' Hin E).
Qed.

Lemma X10_lookup_of_parsed_identifier_witness :
  exists r',
    In r' (rows scenario_frame) /\ uniref_id r' = uniref_id scenario_row
    /\ get_sequence_by_id scenario_frame (uniref_id scenario_row)
       = Ok (PyStr (sequence r'))
    /\ (NoDup (map uniref_id (rows scenario_frame)) -> r' = scenario_row).
Proof.
  apply (@X10_lookup_of_parsed_identifier seq_float_sum scenario
           scenario_frame scenario_row).
  - vm_compute. reflexivity.
  - left. reflexivity.
Defined.

(** X11: the lookup raises [ValueError] exactly when the frame has the
    column [uniref_id] and no row carries the identifier; it raises
    [KeyError] exactly when the column [uniref_id] is missing, or a row
    carries the identifier and the column [sequence] is missing; it never
    raises [IndexError]. *)
Theorem X11_lookup_errors (df : DataFrame) (uid : str) :
  (get_sequence_by_id df uid = Raise ValueError
   <-> has_column df c_uniref_id = true
       /\ forall r, In r (rows df) -> uniref_id r <> uid)
  /\ (get_sequence_by_id df uid = Raise KeyError
      <-> has_column df c_uniref_id = false
          \/ (has_column df c_sequence = false
              /\ exists r, In r (rows df) /\ uniref_id r = uid))
  /\ get_sequence_by_id df uid <> Raise IndexError.
Proof.
  rewrite lookup_unfold.
  destruct (has_column df c_uniref_id) eqn:H1.
  - destruct (find (fun r => str_eqb (uniref_id r) uid) (rows df)) as [r|] eqn:F.
    + pose proof (find_some _ _ F) as [Hin E]. apply str_eqb_eq in E.
      destruct (has_column df c_sequence) eqn:H2; repeat split;
        try discriminate.
      * intros [_ H]. exfalso. exact (H r Hin E).
      * intros [H|[H _]]; discriminate.
      * intros [_ H]. exfalso. exact (H r Hin E).
      * intros _. right. split; [reflexivity|]. exists r. split; assumption.
    + repeat split; try discriminate.
      * intros r Hin E. pose proof (find_none _ _ F r Hin) as X.
        simpl in X. subst uid.
        assert (T : str_eqb (uniref_id r) (uniref_id r) = true)
          by (apply str_eqb_eq; reflexivity).
        congruence.
      * intros [H|[_ (r & Hin & E)]]; [discriminate|].
        exfalso. pose proof (find_none _ _ F r Hin) as X. simpl in X.
        subst uid.
        assert (T : str_eqb (uniref_id r) (uniref_id r) = true)
          by (apply str_eqb_eq; reflexivity).
        congruence.
  - repeat split; try discriminate.
    + intros [H _]. discriminate.
    + intros _. left. reflexivity.
Qed.

(** ** [remove_gaps] *)

(** X12: [remove_gaps] works piece by piece
    ([remove_gaps (a ++ b) = remove_gaps a ++ remove_gaps b]), a second
    pass changes nothing, and a sequence comes back unchanged exactly when
    it has no gap character. *)
Theorem X12_remove_gaps_algebra :
  (forall a b : str, remove_gaps (a ++ b) = remove_gaps a ++ remove_gaps b)
  /\ (forall t : str, remove_gaps (remove_gaps t) = remove_gaps t)
  /\ (forall t : str, remove_gaps t = t <-> count gap_char t = 0%nat).
Proof.
  assert (A : forall a b : str,
             remove_gaps (a ++ b) = remove_gaps a ++ remove_gaps b).
  { intros a b. unfold remove_gaps. rewrite !replace_nil_filter.
    apply filter_app. }
  assert (F : forall t : str, count gap_char t = 0%nat -> remove_gaps t = t).
  { intros t. unfold remove_gaps. induction t as [|c t IH]; simpl;
      [reflexivity|].
    destruct (chr_eqb c gap_char); simpl; [discriminate|].
    intros H. rewrite (IH H). reflexivity. }
  assert (Z : forall t : str, count gap_char (remove_gaps t) = 0%nat).
  { intros t. unfold remove_gaps. induction t as [|c t IH]; simpl;
      [reflexivity|].
    destruct (chr_eqb c gap_char) eqn:E; simpl; [exact IH|].
    rewrite E. exact IH. }
  split; [exact A|]. split.
  - intros t. apply F. apply Z.
  - intros t. split; [|apply F]. intros H. rewrite <- H. apply Z.
Qed.

(** ** Statistics *)

(** X13: on a frame that [parse] returned, [get_statistics] raises
    nothing; [total_sequences] is the number of marker lines of the source
    and is positive, and none of the means and extremes is NaN. *)
Theorem X13_statistics_of_parsed_frame
        (float_sum : list Q -> Q) (text : str) (df : DataFrame) :
  parse float_sum text = Ok df ->
  exists st,
    get_statistics float_sum df = Ok st
    /\ total_sequences st
       = List.length (filter SeqIO.is_marker (SeqIO.readlines text))
    /\ (0 < total_sequences st)%nat
    /\ avg_length st <> NaN /\ min_length st <> NaN
    /\ max_length st <> NaN /\ avg_gap_percentage st <> NaN.
Proof.
  intros P. destruct (@parse_ok_inv _ _ _ P) as (records & data & R & E & N & ->).
  destruct data as [|r data]; [congruence|].
  unfold get_statistics. rewrite !getitem_make_frame by discriminate.
  simpl. eexists. split; [reflexivity|]. simpl.
  repeat split; try discriminate.
  - unfold len. simpl rows.
    rewrite <- (length_map full_header (r :: data)).
    rewrite (@enrich_all_headers _ _ E), (records_titles _ R). apply length_map.
  - unfold len. simpl. lia.
Qed.

Lemma X13_statistics_of_parsed_frame_witness :
  exists st,
    get_statistics seq_float_sum scenario_frame = Ok st
    /\ total_sequences st = 2%nat
    /\ (0 < total_sequences st)%nat
    /\ avg_length st <> NaN /\ min_length st <> NaN
    /\ max_length st <> NaN /\ avg_gap_percentage st <> NaN.
Proof.
  apply (@X13_statistics_of_parsed_frame seq_float_sum scenario scenario_frame).
  vm_compute. reflexivity.
Defined.

(** X14: [get_statistics] raises exactly when the frame lacks one of the
    columns [length], [gap_percentage] and [gap_count], and then it raises
    [KeyError]; so it does on the frame built from no record. *)
Theorem X14_statistics_errors
        (float_sum : list Q -> Q) (df : DataFrame) (e : exn) :
  (get_statistics float_sum df = Raise e
   <-> e = KeyError
       /\ (has_column df c_length = false
           \/ has_column df c_gap_percentage = false
           \/ has_column df c_gap_count = false))
  /\ get_statistics float_sum (make_frame []) = Raise KeyError.
Proof.
  split; [|reflexivity].
  unfold get_statistics, getitem.
  destruct (has_column df c_length); simpl.
  - destruct (has_column df c_gap_percentage); simpl.
    + destruct (has_column df c_gap_count); simpl.
      * split; [discriminate|]. intros [_ [H|[H|H]]]; discriminate.
      * split.
        -- intros H. injection H as <-. split; [reflexivity|]. tauto.
        -- intros [-> _]. reflexivity.
    + split.
      * intros H. injection H as <-. split; [reflexivity|]. tauto.
      * intros [-> _]. reflexivity.
  - split.
    + intros H. injection H as <-. split; [reflexivity|]. tauto.
    + intros [-> _]. reflexivity.
Qed.

Lemma fold_min_const (n : nat) (l : list nat) :
  (forall y, In y l -> y = n) -> fold_right Nat.min n l = n.
Proof.
  induction l as [|a l IH]; simpl; intros H; [reflexivity|].
  rewrite (H a (or_introl eq_refl)), IH by (intros y Hy; apply H; right; exact Hy).
  apply Nat.min_id.
Qed.

Lemma fold_max_const (n : nat) (l : list nat) :
  (forall y, In y l -> y = n) -> fold_right Nat.max n l = n.
Proof.
  induction l as [|a l IH]; simpl; intros H; [reflexivity|].
  rewrite (H a (or_introl eq_refl)), IH by (intros y Hy; apply H; right; exact Hy).
  apply Nat.max_id.
Qed.

(** X15: when all the records have the same length [n], as the sequences
    of an alignment do, and the lengths add up to less than 2^53, the
    statistics give [min_length = max_length = n] and an [avg_length] equal
    to [n]. *)
Theorem X15_statistics_of_alignment
        (float_sum : list Q -> Q) (df : DataFrame) (n : nat) :
  rows df <> [] ->
  has_column df c_length = true ->
  has_column df c_gap_percentage = true ->
  has_column df c_gap_count = true ->
  (forall r, In r (rows df) -> length r = n) ->
  (sumZ (map length (rows df)) < 2 ^ 53)%Z ->
  exists st a,
    get_statistics float_sum df = Ok st
    /\ min_length st = Int (Z.of_nat n)
    /\ max_length st = Int (Z.of_nat n)
    /\ avg_length st = Float a /\ a == inject_Z (Z.of_nat n).
Proof.
  intros N H1 H2 H3 Hn B. unfold get_statistics, getitem.
  rewrite H1, H2, H3. simpl.
  destruct (rows df) as [|r rs]; [congruence|]. simpl map in *.
  assert (Hr : length r = n) by (apply Hn; left; reflexivity).
  assert (Hl : forall y, In y (map length rs) -> y = n).
  { intros y Hy. apply in_map_iff in Hy. destruct Hy as (x & <- & Hx).
    apply Hn. right. exact Hx. }
  destruct (mean_between (length r) (map length rs) B) as [L U].
  unfold min_int, max_int, mean_int, number_le, number_value in L, U.
  rewrite Hr in L, U.
  rewrite (fold_min_const _ Hl) in L. rewrite (fold_max_const _ Hl) in U.
  eexists. eexists. split; [reflexivity|]. simpl.
  rewrite Hr, (fold_min_const _ Hl), (fold_max_const _ Hl).
  repeat split. apply Qle_antisym; assumption.
Qed.

Lemma X15_statistics_of_alignment_witness :
  List.length (rows alignment_frame) = 2%nat
  /\ exists st a,
       get_statistics seq_float_sum alignment_frame = Ok st
       /\ min_length st = Int 4 /\ max_length st = Int 4
       /\ avg_length st = Float a /\ a == 4.
Proof.
  split; [reflexivity|].
  apply (@X15_statistics_of_alignment seq_float_sum alignment_frame 4%nat);
    try reflexivity.
  - discriminate.
  - intros r [<-|[<-|[]]]; reflexivity.
Defined.

(** ** The gap percentage *)

(** X16: the gap percentage of a parsed record is a float read from a
    decimal with two places: it is the float nearest to [k / 100] for a
    whole number [k] between 0 and 10000; and it is 100 when the sequence
    is not empty and all of it is gaps. *)
Theorem X16_gap_percentage_grid
        (float_sum : list Q -> Q) (text : str) (df : DataFrame) (r : Row) :
  parse float_sum text = Ok df ->
  In r (rows df) ->
  (exists k : Z,
      (0 <= k <= 10000)%Z /\ gap_percentage r = fl (inject_Z k / 100))
  /\ ((0 < length r)%nat -> gap_count r = length r ->
      gap_percentage r == 100).
Proof.
  intros P Hin. destruct (@parsed_row _ _ _ _ P Hin) as (records & sr & _ & _ & E).
  destruct (@enrich_fields _ _ E) as (_ & Hl & Hg & Hp & _).
  assert (G : (gap_count r <= length r)%nat).
  { rewrite Hg, Hl. apply count_le_length. }
  set (x := if (0 <? length r)%nat
            then float_mul (int_truediv (Z.of_nat (gap_count r))
                                        (Z.of_nat (length r))) 100
            else 0) in *.
  assert (X : 0 <= x <= 100).
  { unfold x. destruct (0 <? length r)%nat eqn:Z0.
    - apply Nat.ltb_lt in Z0. apply percentage_bounds; assumption.
    - split; discriminate. }
  split.
  - exists (rne (x * 100)). split; [|exact Hp]. split.
    + apply rne_ge. change (inject_Z 0) with 0. lra.
    + apply rne_le. change (inject_Z 10000) with 10000. lra.
  - intros Z0 All.
    assert (Pn : 0 < inject_Z (Z.of_nat (length r))).
    { change 0 with (inject_Z 0). rewrite <- Zlt_Qlt. lia. }
    assert (Q1 : inject_Z (Z.of_nat (gap_count r))
                 / inject_Z (Z.of_nat (length r)) == 1).
    { rewrite All. field. intros H. rewrite H in Pn. discriminate. }
    assert (X1 : fl (inject_Z (Z.of_nat (gap_count r))
                     / inject_Z (Z.of_nat (length r))) == 1).
    { apply Qle_antisym.
      - apply (@fl_le_int _ 1%Z); [split; [lia | reflexivity]|].
        rewrite Q1. apply Qle_refl.
      - apply (@fl_ge_int _ 1%Z); [split; [lia | reflexivity]|].
        rewrite Q1. apply Qle_refl. }
    assert (X100 : x == 100).
    { unfold x. apply Nat.ltb_lt in Z0. rewrite Z0.
      unfold float_mul, int_truediv. apply Qle_antisym.
      - apply (@fl_le_int _ 100%Z); [split; [lia | reflexivity]|].
        rewrite X1. discriminate.
      - apply (@fl_ge_int _ 100%Z); [split; [lia | reflexivity]|].
        rewrite X1. discriminate. }
    rewrite Hp. unfold round2.
    assert (K : rne (x * 100) = 10000%Z).
    { apply Z.le_antisymm.
      - apply rne_le. rewrite X100. discriminate.
      - apply rne_ge. rewrite X100. discriminate. }
    rewrite K. reflexivity.
Qed.

Lemma X16_gap_percentage_grid_witness :
  (exists k : Z,
      (0 <= k <= 10000)%Z
      /\ gap_percentage scenario_row = fl (inject_Z k / 100))
  /\ ((0 < length scenario_row)%nat ->
      gap_count scenario_row = length scenario_row ->
      gap_percentage scenario_row == 100).
Proof.
  apply (@X16_gap_percentage_grid seq_float_sum scenario scenario_frame
           scenario_row).
  - vm_compute. reflexivity.
  - left. reflexivity.
Defined.

(** ** The last line of the source *)

Lemma make_record_body (title : str) (body body' : list str) :
  filter (fun c => negb (SeqIO.is_blank c)) (concat body)
  = filter (fun c => negb (SeqIO.is_blank c)) (concat body') ->
  SeqIO.make_record title body = SeqIO.make_record title body'.
Proof. intros H. unfold SeqIO.make_record. rewrite H. reflexivity. Qed.

Lemma body_snoc (body body' : list str) (l l' : str) :
  filter (fun c => negb (SeqIO.is_blank c)) (concat body)
  = filter (fun c => negb (SeqIO.is_blank c)) (concat body') ->
  filter (fun c => negb (SeqIO.is_blank c)) l
  = filter (fun c => negb (SeqIO.is_blank c)) l' ->
  filter (fun c => negb (SeqIO.is_blank c)) (concat (body ++ [l]))
  = filter (fun c => negb (SeqIO.is_blank c)) (concat (body' ++ [l'])).
Proof.
  intros Hb Hl. rewrite !concat_app, !filter_app. simpl.
  rewrite !app_nil_r, Hb, Hl. reflexivity.
Qed.

Lemma collect_equiv (title : str) (ls ls' : list str) :
  Forall2 line_equiv ls ls' ->
  forall body body',
    filter (fun c => negb (SeqIO.is_blank c)) (concat body)
    = filter (fun c => negb (SeqIO.is_blank c)) (concat body') ->
    SeqIO.collect title body ls = SeqIO.collect title body' ls'.
Proof.
  intros F. revert title.
  induction F as [|l l' ls ls' (Hm & Ht & Hf) _ IH]; intros title body body' Hb;
    simpl.
  - f_equal. apply make_record_body. exact Hb.
  - rewrite <- Hm, <- Ht. destruct (SeqIO.is_marker l).
    + f_equal; [apply make_record_body; exact Hb|]. apply IH. reflexivity.
    + apply IH. apply body_snoc; assumption.
Qed.

Lemma parse_lines_equiv (ls ls' : list str) :
  Forall2 line_equiv ls ls' -> SeqIO.parse_lines ls = SeqIO.parse_lines ls'.
Proof.
  unfold SeqIO.parse_lines.
  destruct 1 as [|l l' ls ls' (Hm & Ht & Hf) F]; [reflexivity|].
  rewrite <- Hm. destruct (SeqIO.is_marker l); [|reflexivity].
  rewrite <- Ht. f_equal. apply collect_equiv; [exact F | reflexivity].
Qed.

Lemma collect_blank_tail (b : str) (ls : list str) :
  SeqIO.is_marker b = false ->
  filter (fun c => negb (SeqIO.is_blank c)) b = [] ->
  forall title body,
    SeqIO.collect title body (ls ++ [b]) = SeqIO.collect title body ls.
Proof.
  intros Hm Hf. induction ls as [|l ls IH]; intros title body; simpl.
  - rewrite Hm. simpl. f_equal. apply make_record_body.
    rewrite concat_app, filter_app. simpl. rewrite app_nil_r, Hf.
    apply app_nil_r.
  - destruct (SeqIO.is_marker l); [f_equal|]; apply IH.
Qed.

Lemma parse_lines_blank_tail (b : str) (ls : list str) :
  ls <> [] ->
  SeqIO.is_marker b = false ->
  filter (fun c => negb (SeqIO.is_blank c)) b = [] ->
  SeqIO.parse_lines (ls ++ [b]) = SeqIO.parse_lines ls.
Proof.
  intros N Hm Hf. unfold SeqIO.parse_lines.
  destruct ls as [|l ls]; [congruence|]. simpl.
  destruct (SeqIO.is_marker l); [|reflexivity].
  f_equal. apply collect_blank_tail; assumption.
Qed.

Lemma rstrip_snoc_space (t : str) (c : ascii) :
  is_space c = true -> rstrip (t ++ [c]) = rstrip t.
Proof.
  intros Hc. induction t as [|x t IH]; simpl.
  - rewrite Hc. reflexivity.
  - rewrite IH. reflexivity.
Qed.

Lemma line_equiv_refl (l : str) : line_equiv l l.
Proof. repeat split. Qed.

Lemma lines_equiv_refl (ls : list str) : Forall2 line_equiv ls ls.
Proof.
  induction ls as [|l ls IH]; constructor; [apply line_equiv_refl | exact IH].
Qed.

Lemma line_equiv_snoc_LF (l : str) :
  l <> [] -> line_equiv l (l ++ [SeqIO.LF]).
Proof.
  intros N. destruct l as [|c l]; [congruence|]. repeat split.
  - unfold SeqIO.title_of. simpl.
    symmetry. apply rstrip_snoc_space. reflexivity.
  - rewrite filter_app. simpl. symmetry. apply app_nil_r.
Qed.

Lemma readlines_snoc_LF (t : str) :
  SeqIO.readlines (t ++ [SeqIO.LF]) = SeqIO.readlines t ++ [[SeqIO.LF]]
  \/ exists ls0 l,
       l <> [] /\ SeqIO.readlines t = ls0 ++ [l]
       /\ SeqIO.readlines (t ++ [SeqIO.LF]) = ls0 ++ [l ++ [SeqIO.LF]].
Proof.
  induction t as [|c t IH]; [left; reflexivity|].
  simpl. destruct (chr_eqb c SeqIO.LF).
  - destruct IH as [IH|(ls0 & l & N & E1 & E2)].
    + left. rewrite IH. reflexivity.
    + right. exists ([c] :: ls0), l. rewrite E1, E2. repeat split. exact N.
  - destruct IH as [IH|(ls0 & l & N & E1 & E2)].
    + rewrite IH. destruct (SeqIO.readlines t) as [|l1 ls1].
      * right. exists [], [c]. repeat split. discriminate.
      * left. reflexivity.
    + rewrite E1, E2. right. destruct ls0 as [|l0 ls0].
      * exists [], (c :: l). repeat split. discriminate.
      * exists ((c :: l0) :: ls0), l. repeat split. exact N.
Qed.

Lemma reader_final_newline (text : str) :
  text <> [] ->
  SeqIO.parse (text ++ [SeqIO.LF]) = SeqIO.parse text.
Proof.
  intros T. unfold SeqIO.parse.
  destruct (readlines_snoc_LF text) as [E|(ls0 & l & N & E1 & E2)].
  - rewrite E. apply parse_lines_blank_tail; try reflexivity.
    intros H. apply readlines_nil in H. contradiction.
  - rewrite E1, E2. symmetry. apply parse_lines_equiv.
    apply Forall2_app.
    + apply lines_equiv_refl.
    + constructor; [apply line_equiv_snoc_LF; exact N | constructor].
Qed.

(** X17: a line feed added at the end of a source that is not empty
    changes nothing: [parse] gives the same frame, or raises the same
    error, whether or not the last line of the file is terminated, and
    whether or not an empty line follows it. *)
Theorem X17_final_newline (float_sum : list Q -> Q) (text : str) :
  text <> [] ->
  parse float_sum (text ++ nl) = parse float_sum text.
Proof.
  intros T. unfold parse, nl. rewrite (reader_final_newline T). reflexivity.
Qed.

Lemma X17_final_newline_witness :
  parse seq_float_sum ((txt ">a" ++ nl ++ txt "MK-V") ++ nl)
  = parse seq_float_sum (txt ">a" ++ nl ++ txt "MK-V").
Proof.
  apply (@X17_final_newline seq_float_sum (txt ">a" ++ nl ++ txt "MK-V")).
  discriminate.
Defined.

(** ** [main] *)

Lemma statistics_of_parsed (float_sum : list Q -> Q) (text : str)
      (df : DataFrame) :
  parse float_sum text = Ok df ->
  exists st,
    get_statistics float_sum df = Ok st
    /\ total_sequences st
       = List.length (filter SeqIO.is_marker (SeqIO.readlines text)).
Proof.
  intros P. destruct (@parse_ok_inv _ _ _ P) as (records & data & R & E & N & ->).
  destruct data as [|r data]; [congruence|].
  unfold get_statistics. rewrite !getitem_make_frame by discriminate.
  simpl. eexists. split; [reflexivity|]. simpl. unfold len. simpl rows.
  rewrite <- (length_map full_header (r :: data)).
  rewrite (@enrich_all_headers _ _ E), (records_titles _ R). apply length_map.
Qed.

Lemma preview_of_parsed (float_sum : list Q -> Q) (text : str)
      (df : DataFrame) :
  parse float_sum text = Ok df ->
  rows df <> []
  /\ getitems df [c_uniref_id; c_length; c_gap_percentage]
     = Ok {| columns := [c_uniref_id; c_length; c_gap_percentage];
             rows := rows df |}.
Proof.
  intros P. destruct (@parse_ok_inv _ _ _ P) as (records & data & _ & _ & N & ->).
  destruct data as [|r data]; [congruence|]. split; [discriminate|].
  reflexivity.
Qed.

(** X18: when a run of [main] returns, the command line named a file
    that exists and could be read, [parse] returned a frame for its text
    and that frame was saved; the statistics reported are those of the
    frame, with as many sequences as the file has marker lines, and the
    preview shows the columns [uniref_id], [length] and [gap_percentage]
    of its first rows, at least one and at most three. *)
Theorem X18_main_returned
        (float_sum : list Q -> Q) (path_exists : str -> bool)
        (read_text : str -> option str) (write_csv : str -> DataFrame -> bool)
        (argv : list str) (df : DataFrame) (st : Statistics)
        (view : DataFrame) :
  main float_sum path_exists read_text write_csv argv = Returned df st view ->
  exists prog file rest text,
    argv = prog :: file :: rest
    /\ path_exists file = true
    /\ read_text file = Some text
    /\ parse float_sum text = Ok df
    /\ write_csv output_path df = true
    /\ get_statistics float_sum df = Ok st
    /\ total_sequences st
       = List.length (filter SeqIO.is_marker (SeqIO.readlines text))
    /\ columns view = [c_uniref_id; c_length; c_gap_percentage]
    /\ rows view = firstn 3 (rows df)
    /\ (1 <= List.length (rows view) <= 3)%nat.
Proof.
  unfold main, __init__.
  destruct argv as [|prog [|file rest]]; try discriminate.
  destruct (path_exists file) eqn:Ex; [|discriminate]. simpl.
  destruct (read_text file) as [text|] eqn:Rd; [|discriminate].
  destruct (parse float_sum text) as [df0|e] eqn:P; [|discriminate].
  destruct (write_csv output_path df0) eqn:W; [|discriminate].
  destruct (statistics_of_parsed _ _ P) as (st0 & S & T). rewrite S.
  destruct (preview_of_parsed _ _ P) as [N V]. rewrite V.
  intros H. injection H as <- <- <-.
  exists prog, file, rest, text. repeat split; try assumption.
  - simpl. destruct (rows df0) as [|r0 [|r1 [|r2 rs]]]; simpl; try lia.
    congruence.
  - simpl. destruct (rows df0) as [|r0 [|r1 [|r2 rs]]]; simpl; lia.
Qed.

Lemma X18_main_returned_witness :
  exists text,
    parse seq_float_sum text = Ok scenario_frame
    /\ get_statistics seq_float_sum scenario_frame = Ok scenario_stats
    /\ total_sequences scenario_stats
       = List.length (filter SeqIO.is_marker (SeqIO.readlines text)).
Proof.
  destruct (@X18_main_returned seq_float_sum (fun _ => true)
              (fun _ => Some scenario) (fun _ _ => true)
              [txt "parser.py"; txt "gpcr.fasta"] scenario_frame
              scenario_stats
              (head 3 {| columns := [c_uniref_id; c_length; c_gap_percentage];
                         rows := rows scenario_frame |}))
    as (prog & file & rest & text & _ & _ & _ & H4 & _ & H6 & H7 & _).
  - vm_compute. reflexivity.
  - exists text. repeat split; assumption.
Defined.

(** X19: what a run of [main] never does.  It exits only with status 1,
    and exactly when the command line has no file argument; it never
    raises from the statistics or from the preview; and whenever it has
    saved a frame, the frame has a row and the run returns normally. *)
Theorem X19_main_never
        (float_sum : list Q -> Q) (path_exists : str -> bool)
        (read_text : str -> option str) (write_csv : str -> DataFrame -> bool)
        (argv : list str) :
  (forall code,
      main float_sum path_exists read_text write_csv argv = Exited code
      <-> code = 1%nat /\ (List.length argv < 2)%nat)
  /\ (forall df e,
        main float_sum path_exists read_text write_csv argv
        <> RaisedByStatistics df e)
  /\ (forall df st e,
        main float_sum path_exists read_text write_csv argv
        <> RaisedByPreview df st e)
  /\ (forall df,
        saved (main float_sum path_exists read_text write_csv argv) = Some df ->
        rows df <> []
        /\ exists st view,
             main float_sum path_exists read_text write_csv argv
             = Returned df st view).
Proof.
  unfold main, __init__.
  assert (Short : forall a : list str,
             (List.length a < 2)%nat ->
             (forall code,
                 Exited 1 = Exited code
                 <-> code = 1%nat /\ (List.length a < 2)%nat)).
  { intros a La code. split.
    - intros H. injection H as <-. split; [reflexivity | exact La].
    - intros [-> _]. reflexivity. }
  destruct argv as [|prog [|file rest]].
  - split; [apply Short; simpl; lia|].
    split; [discriminate|]. split; [discriminate|]. discriminate.
  - split; [apply Short; simpl; lia|].
    split; [discriminate|]. split; [discriminate|]. discriminate.
  - assert (Long : forall o : outcome,
               (forall code, o <> Exited code) ->
               forall code,
                 o = Exited code
                 <-> code = 1%nat
                     /\ (List.length (prog :: file :: rest) < 2)%nat).
    { intros o Ho code. split.
      - intros H. exfalso. exact (Ho code H).
      - intros [_ H]. simpl in H. lia. }
    destruct (path_exists file); simpl.
    2:{ split; [apply Long; discriminate|].
        split; [discriminate|]. split; discriminate. }
    destruct (read_text file) as [text|].
    2:{ split; [apply Long; discriminate|].
        split; [discriminate|]. split; discriminate. }
    destruct (parse float_sum text) as [df0|e0] eqn:P.
    2:{ split; [apply Long; discriminate|].
        split; [discriminate|]. split; discriminate. }
    destruct (write_csv output_path df0).
    2:{ split; [apply Long; discriminate|].
        split; [discriminate|]. split; discriminate. }
    destruct (statistics_of_parsed _ _ P) as (st0 & S & _). rewrite S.
    destruct (preview_of_parsed _ _ P) as [N V]. rewrite V.
    split; [apply Long; discriminate|].
    split; [discriminate|]. split; [discriminate|].
    intros df H. simpl in H. injection H as <-.
    split; [exact N|]. eexists. eexists. reflexivity.
Qed.

(** X20: a run of [main] returns whenever the command line names a file
    that exists and can be read, the text of the file starts with [>], has
    a word after the marker on every marker line and only ASCII on the
    other lines, and the frame can be saved. *)
Theorem X20_main_returns
        (float_sum : list Q -> Q) (path_exists : str -> bool)
        (read_text : str -> option str) (write_csv : str -> DataFrame -> bool)
        (prog file : str) (rest : list str) (text : str) :
  path_exists file = true ->
  read_text file = Some text ->
  SeqIO.is_marker text = true ->
  Forall (fun l => forallb is_space (SeqIO.title_of l) = false)
         (filter SeqIO.is_marker (SeqIO.readlines text)) ->
  forallb (forallb SeqIO.is_ascii)
          (filter (fun l => negb (SeqIO.is_marker l)) (SeqIO.readlines text))
  = true ->
  (forall df, write_csv output_path df = true) ->
  exists df st view,
    main float_sum path_exists read_text write_csv (prog :: file :: rest)
    = Returned df st view
    /\ parse float_sum text = Ok df.
Proof.
  intros Ex Rd M F A W. unfold main, __init__. rewrite Ex. simpl. rewrite Rd.
  destruct (parse_total float_sum text M F A) as [df P]. rewrite P, W.
  destruct (statistics_of_parsed _ _ P) as (st & S & _). rewrite S.
  destruct (preview_of_parsed _ _ P) as [_ V]. rewrite V.
  eexists. eexists. eexists. split; reflexivity.
Qed.

Lemma X20_main_returns_witness :
  exists df st view,
    main seq_float_sum (fun _ => true) (fun _ => Some scenario)
         (fun _ _ => true) [txt "parser.py"; txt "gpcr.fasta"]
    = Returned df st view
    /\ parse seq_float_sum scenario = Ok df.
Proof.
  apply (@X20_main_returns seq_float_sum (fun _ => true)
           (fun _ => Some scenario) (fun _ _ => true)
           (txt "parser.py") (txt "gpcr.fasta") [] scenario).
  - reflexivity.
  - reflexivity.
  - reflexivity.
  - repeat constructor.
  - reflexivity.
  - reflexivity.
Defined.

(** ** Line breaks inside a record *)

Lemma collect_prefix (A B : list str) :
  (forall title body body',
      filter (fun c => negb (SeqIO.is_blank c)) (concat body)
      = filter (fun c => negb (SeqIO.is_blank c)) (concat body') ->
      SeqIO.collect title body A = SeqIO.collect title body' B) ->
  forall ls0 title body body',
    filter (fun c => negb (SeqIO.is_blank c)) (concat body)
    = filter (fun c => negb (SeqIO.is_blank c)) (concat body') ->
    SeqIO.collect title body (ls0 ++ A) = SeqIO.collect title body' (ls0 ++ B).
Proof.
  intros H. induction ls0 as [|l ls0 IH]; intros title body body' Hb; simpl.
  - apply H. exact Hb.
  - destruct (SeqIO.is_marker l).
    + f_equal; [apply make_record_body; exact Hb | apply IH; reflexivity].
    + apply IH. apply body_snoc; [exact Hb | reflexivity].
Qed.

Lemma parse_lines_prefix (A B : list str) :
  (forall title body body',
      filter (fun c => negb (SeqIO.is_blank c)) (concat body)
      = filter (fun c => negb (SeqIO.is_blank c)) (concat body') ->
      SeqIO.collect title body A = SeqIO.collect title body' B) ->
  forall l0 ls0,
    SeqIO.parse_lines (l0 :: ls0 ++ A) = SeqIO.parse_lines (l0 :: ls0 ++ B).
Proof.
  intros H l0 ls0. unfold SeqIO.parse_lines.
  destruct (SeqIO.is_marker l0); [|reflexivity].
  f_equal. apply collect_prefix; [exact H | reflexivity].
Qed.

Lemma blank_line_dropped (l0 : str) (ls0 rest : list str) :
  SeqIO.parse_lines (l0 :: ls0 ++ [SeqIO.LF] :: rest)
  = SeqIO.parse_lines (l0 :: ls0 ++ rest).
Proof.
  apply parse_lines_prefix.
  intros title body body' Hb. simpl.
  apply collect_equiv; [apply lines_equiv_refl|].
  rewrite concat_app, filter_app. simpl. rewrite Hb. apply app_nil_r.
Qed.

Lemma is_marker_app (l l' : str) :
  l <> [] -> SeqIO.is_marker (l ++ l') = SeqIO.is_marker l.
Proof. destruct l; [congruence | reflexivity]. Qed.

Lemma wrapped_line_joined (ls0 rest : list str) (l lb : str) :
  l <> [] -> SeqIO.is_marker l = false -> SeqIO.is_marker lb = false ->
  SeqIO.parse_lines (ls0 ++ (l ++ [SeqIO.LF]) :: lb :: rest)
  = SeqIO.parse_lines (ls0 ++ (l ++ lb) :: rest).
Proof.
  intros N Hl Hb.
  assert (M1 : SeqIO.is_marker (l ++ [SeqIO.LF]) = false)
    by (rewrite is_marker_app; assumption).
  assert (M2 : SeqIO.is_marker (l ++ lb) = false)
    by (rewrite is_marker_app; assumption).
  destruct ls0 as [|l0 ls0].
  - unfold SeqIO.parse_lines. cbn [app]. rewrite M1, M2. reflexivity.
  - apply (parse_lines_prefix
             ((l ++ [SeqIO.LF]) :: lb :: rest) ((l ++ lb) :: rest)).
    intros title body body' E. simpl. rewrite M1, Hb, M2.
    apply collect_equiv; [apply lines_equiv_refl|].
    rewrite !concat_app, !filter_app. simpl.
    rewrite !app_nil_r, !filter_app, E. simpl.
    rewrite app_nil_r, <- app_assoc. reflexivity.
Qed.

Lemma readlines_cons (c : ascii) (t : str) :
  SeqIO.readlines (c :: t)
  = if chr_eqb c SeqIO.LF then [c] :: SeqIO.readlines t
    else match SeqIO.readlines t with
         | [] => [[c]]
         | l :: ls => (c :: l) :: ls
         end.
Proof. reflexivity. Qed.

Lemma readlines_open_last (a : str) :
  a <> [] -> last a "x"%char <> SeqIO.LF ->
  exists ls0 l,
    l <> [] /\ SeqIO.readlines a = ls0 ++ [l]
    /\ forall b,
         SeqIO.readlines (a ++ b)
         = match SeqIO.readlines b with
           | [] => ls0 ++ [l]
           | lb :: rest => ls0 ++ (l ++ lb) :: rest
           end.
Proof.
  induction a as [|c a IH]; intros N L; [congruence|].
  destruct a as [|c' a'].
  - simpl in L. assert (E : chr_eqb c SeqIO.LF = false).
    { destruct (chr_eqb c SeqIO.LF) eqn:E; [|reflexivity].
      apply chr_eqb_eq in E. contradiction. }
    exists [], [c]. split; [discriminate|]. split.
    + simpl. rewrite E. reflexivity.
    + intros b. simpl. rewrite E. destruct (SeqIO.readlines b); reflexivity.
  - destruct (IH ltac:(discriminate) L) as (ls0 & l & Nl & E1 & E2).
    set (t := c' :: a') in *.
    assert (G : forall b, (c :: t) ++ b = c :: (t ++ b)) by reflexivity.
    destruct (chr_eqb c SeqIO.LF) eqn:C.
    + exists ([c] :: ls0), l. split; [exact Nl|]. split.
      * rewrite readlines_cons, C, E1. reflexivity.
      * intros b. rewrite G, readlines_cons, C, E2.
        destruct (SeqIO.readlines b); reflexivity.
    + destruct ls0 as [|l0 ls0].
      * exists [], (c :: l). split; [discriminate|]. split.
        -- rewrite readlines_cons, C, E1. reflexivity.
        -- intros b. rewrite G, readlines_cons, C, E2.
           destruct (SeqIO.readlines b); reflexivity.
      * exists ((c :: l0) :: ls0), l. split; [exact Nl|]. split.
        -- rewrite readlines_cons, C, E1. reflexivity.
        -- intros b. rewrite G, readlines_cons, C, E2.
           destruct (SeqIO.readlines b); reflexivity.
Qed.

(** X21: an empty line inside the source changes nothing: a line feed
    put right after another line feed gives the same frame, or the same
    error. *)
Theorem X21_empty_line_ignored (float_sum : list Q -> Q) (a b : str) :
  a <> [] -> last a "x"%char = SeqIO.LF ->
  parse float_sum (a ++ nl ++ b) = parse float_sum (a ++ b).
Proof.
  intros Na La. unfold parse, SeqIO.parse, nl.
  rewrite (@readlines_app a ([SeqIO.LF] ++ b)) by (right; exact La).
  rewrite (@readlines_app a b) by (right; exact La).
  rewrite (@readlines_app [SeqIO.LF] b) by (right; reflexivity).
  change (SeqIO.readlines [SeqIO.LF]) with [[SeqIO.LF]].
  change ([[SeqIO.LF]] ++ SeqIO.readlines b)
    with ([SeqIO.LF] :: SeqIO.readlines b).
  destruct (SeqIO.readlines a) as [|l0 ls0] eqn:Ra;
    [apply readlines_nil in Ra; contradiction|].
  change ((l0 :: ls0) ++ [SeqIO.LF] :: SeqIO.readlines b)
    with (l0 :: ls0 ++ [SeqIO.LF] :: SeqIO.readlines b).
  rewrite blank_line_dropped. reflexivity.
Qed.

Lemma X21_empty_line_ignored_witness :
  parse seq_float_sum ((txt ">a" ++ nl) ++ nl ++ txt "MKV")
  = parse seq_float_sum ((txt ">a" ++ nl) ++ txt "MKV").
Proof.
  apply (@X21_empty_line_ignored seq_float_sum (txt ">a" ++ nl) (txt "MKV")).
  - discriminate.
  - reflexivity.
Defined.

(** X22: where a sequence is broken into lines does not matter: a line
    feed put inside a line that is not a marker line, before a character
    other than [>], gives the same frame, or the same error. *)
Theorem X22_sequence_wrapping (float_sum : list Q -> Q) (a b : str) :
  a <> [] -> last a "x"%char <> SeqIO.LF ->
  SeqIO.is_marker (last (SeqIO.readlines a) []) = false ->
  SeqIO.is_marker b = false ->
  parse float_sum (a ++ nl ++ b) = parse float_sum (a ++ b).
Proof.
  intros Na La Ma Mb.
  assert (K : SeqIO.parse_lines (SeqIO.readlines (a ++ [SeqIO.LF] ++ b))
              = SeqIO.parse_lines (SeqIO.readlines (a ++ b))).
  { destruct (readlines_open_last Na La) as (ls0 & l & Nl & E1 & E2).
    rewrite E1, last_last in Ma.
    rewrite (E2 ([SeqIO.LF] ++ b)), (E2 b).
    rewrite (@readlines_app [SeqIO.LF] b) by (right; reflexivity).
    change (SeqIO.readlines [SeqIO.LF]) with [[SeqIO.LF]].
    change ([[SeqIO.LF]] ++ SeqIO.readlines b)
      with ([SeqIO.LF] :: SeqIO.readlines b).
    pose proof (readlines_first_marker b) as Fb.
    destruct (SeqIO.readlines b) as [|lb rest].
    - symmetry. apply parse_lines_equiv.
      apply Forall2_app; [apply lines_equiv_refl|].
      constructor; [apply line_equiv_snoc_LF; exact Nl | constructor].
    - apply wrapped_line_joined; [exact Nl | exact Ma |].
      rewrite Fb. exact Mb. }
  unfold parse, SeqIO.parse, nl. rewrite K. reflexivity.
Qed.

Lemma X22_sequence_wrapping_witness :
  parse seq_float_sum ((txt ">a" ++ nl ++ txt "MK") ++ nl ++ txt "VGT")
  = parse seq_float_sum ((txt ">a" ++ nl ++ txt "MK") ++ txt "VGT").
Proof.
  apply (@X22_sequence_wrapping seq_float_sum (txt ">a" ++ nl ++ txt "MK")
           (txt "VGT")).
  - discriminate.
  - vm_compute. discriminate.
  - reflexivity.
  - reflexivity.
Defined.
